(** * Authentication and abuse-prevention core of ai-app-buida-be

    A shallow embedding of the TypeScript sources

    - [src/middleware/security.ts]  (abuse tracker, block check, sanitizer),
    - [src/middleware/errorHandler.ts] (AppError, global error handler),
    - [src/utils/jwt.ts]            (access / refresh credentials),
    - [src/config/passport.ts]      (OAuth account linking),
    - [src/controllers/authController.ts] (login, forgot-password),

    followed by the properties of the specification that concern them.

    Conventions.  Time is [Date.now()] in milliseconds, an integer [Z]; one
    call of a synchronous function reads one clock value.  Logging is not
    modelled.  [process.env] is the record [Env]; the numeric settings are
    held already parsed ([parseInt] of a non-numeric text is outside the
    model).  The process-wide [Map] of the abuse tracker is a [gmap] that is
    threaded through every operation. *)

From Stdlib Require Import ZArith Lia Bool Ascii String List.
From stdpp Require Import base option gmap strings list.
Import ListNotations.

Local Open Scope string_scope.
Local Open Scope Z_scope.

(** ** process.env *)

Record Env := {
  JWT_SECRET : option string;
  JWT_EXPIRES_IN : option string;
  JWT_REFRESH_SECRET : option string;
  JWT_REFRESH_EXPIRES_IN : option string;
  SUSPICIOUS_LOGIN_THRESHOLD : option Z;
  ACCOUNT_LOCKOUT_DURATION : option Z;
  FRONTEND_URL : option string
}.

(** [v || d] for a text that may be undefined: the undefined value and the
    empty text are both falsy. *)
Definition or_else (v : option string) (d : string) : string :=
  match v with
  | None => d
  | Some "" => d
  | Some s => s
  end.

(** [!process.env.X] *)
Definition env_missing (v : option string) : bool :=
  match v with
  | None => true
  | Some "" => true
  | Some _ => false
  end.

(** ** Text primitives

    A text is a sequence of code units below 256 (Stdlib's [string]); the
    character classes below are those of ECMAScript restricted to that
    range. *)

Module Text.

Definition code (c : ascii) : N := N_of_ascii c.

Definition in_range (lo hi : N) (c : ascii) : bool :=
  ((lo <=? code c) && (code c <=? hi))%N.

Definition is_digit (c : ascii) : bool := in_range 48 57 c.
Definition is_upper (c : ascii) : bool := in_range 65 90 c.
Definition is_lower (c : ascii) : bool := in_range 97 122 c.

(** [\w] : [[A-Za-z0-9_]] *)
Definition is_word (c : ascii) : bool :=
  is_upper c || is_lower c || is_digit c || (code c =? 95)%N.

(** [\s], also the characters removed by [String.prototype.trim]:
    TAB, LF, VT, FF, CR, space and NBSP. *)
Definition is_space (c : ascii) : bool :=
  in_range 9 13 c || (code c =? 32)%N || (code c =? 160)%N.

(** Line terminators, which [.] does not match: LF and CR. *)
Definition is_line_terminator (c : ascii) : bool :=
  (code c =? 10)%N || (code c =? 13)%N.

(** Case folding of a regular expression with the [i] flag, on the letters
    of the patterns used here (ASCII letters only fold onto ASCII letters). *)
Definition fold_case (c : ascii) : ascii :=
  if is_upper c then ascii_of_N (code c + 32) else c.

(** One code unit of [String.prototype.toLowerCase]: A-Z and the upper-case
    letters of Latin-1 (U+00C0..U+00DE except the multiplication sign). *)
Definition lower_char (c : ascii) : ascii :=
  if is_upper c || (in_range 192 222 c && negb (code c =? 215)%N)
  then ascii_of_N (code c + 32) else c.

Fixpoint toLowerCase (s : string) : string :=
  match s with
  | EmptyString => EmptyString
  | String c r => String (lower_char c) (toLowerCase r)
  end.

Fixpoint trimStart (s : string) : string :=
  match s with
  | EmptyString => EmptyString
  | String c r => if is_space c then trimStart r else s
  end.

(** Drops the trailing white space: a character is kept when something
    that is kept follows it, or when it is not white space itself. *)
Fixpoint trimEnd (s : string) : string :=
  match s with
  | EmptyString => EmptyString
  | String c r =>
      match trimEnd r with
      | EmptyString => if is_space c then EmptyString else String c EmptyString
      | r' => String c r'
      end
  end.

Definition trim (s : string) : string := trimEnd (trimStart s).

(** [hay.startsWith(p)] *)
Definition startsWith (p hay : string) : bool := String.prefix p hay.

(** [hay.includes(needle)] *)
Fixpoint includes (needle hay : string) : bool :=
  startsWith needle hay ||
  match hay with
  | EmptyString => false
  | String _ r => includes needle r
  end.

(** [p] matches at the start of [s], letters compared without case. *)
Fixpoint prefix_ci (p s : string) : bool :=
  match p, s with
  | EmptyString, _ => true
  | String a p', String b s' =>
      Ascii.eqb (fold_case a) (fold_case b) && prefix_ci p' s'
  | String _ _, EmptyString => false
  end.

(** Longest prefix of characters satisfying [f], and what follows it. *)
Fixpoint span (f : ascii -> bool) (s : string) : string * string :=
  match s with
  | EmptyString => (EmptyString, EmptyString)
  | String c r =>
      if f c then let '(a, b) := span f r in (String c a, b)
      else (EmptyString, s)
  end.

Fixpoint drop (n : nat) (s : string) : string :=
  match n, s with
  | O, _ => s
  | S _, EmptyString => EmptyString
  | S k, String _ r => drop k r
  end.

(** Decimal value of a run of digits. *)
Definition digits_value (s : string) : Z :=
  fold_left (fun acc c => 10 * acc + (Z.of_N (code c) - 48))
            (list_ascii_of_string s) 0.

End Text.

(** ** Abuse tracker (src/middleware/security.ts) *)

Module AbuseTracker.

(** [{ count; lastAttempt; blocked; blockUntil? }] *)
Record Activity := {
  count : Z;
  lastAttempt : Z;
  blocked : bool;
  blockUntil : option Z
}.

(** [const suspiciousActivities = new Map<string, ...>()] *)
Abbreviation Store := (gmap string Activity).

(** [parseInt(process.env.SUSPICIOUS_LOGIN_THRESHOLD || '5')] *)
Definition threshold (e : Env) : Z := default 5 (SUSPICIOUS_LOGIN_THRESHOLD e).

(** [parseInt(process.env.ACCOUNT_LOCKOUT_DURATION || '900000')] *)
Definition lockoutDuration (e : Env) : Z :=
  default 900000 (ACCOUNT_LOCKOUT_DURATION e).

Definition trackSuspiciousActivity
    (e : Env) (now : Z) (identifier activityType : string) (s : Store) : Store :=
  let activity :=
    default {| count := 0; lastAttempt := now; blocked := false;
               blockUntil := None |} (s !! identifier) in
  (* activity.count += 1; activity.lastAttempt = new Date(); *)
  let activity :=
    {| count := count activity + 1; lastAttempt := now;
       blocked := blocked activity; blockUntil := blockUntil activity |} in
  let activity :=
    if (threshold e <=? count activity) && negb (blocked activity)
    then {| count := count activity; lastAttempt := lastAttempt activity;
            blocked := true;
            blockUntil := Some (now + lockoutDuration e) |}
    else activity in
  let s := <[identifier := activity]> s in
  (* Clean up old entries (older than 24 hours) *)
  if 24 * 60 * 60 * 1000 <? now - lastAttempt activity
  then delete identifier s
  else s.

Definition isBlocked (now : Z) (identifier : string) (s : Store)
    : bool * Store :=
  match s !! identifier with
  | None => (false, s)
  | Some activity =>
      if negb (blocked activity) then (false, s)
      else match blockUntil activity with
           | None => (false, s)
           | Some bu =>
               if bu <? now
               then (false,
                     <[identifier :=
                         {| count := 0; lastAttempt := lastAttempt activity;
                            blocked := false; blockUntil := None |}]> s)
               else (true, s)
           end
  end.

(** The record that one call of [trackSuspiciousActivity] writes, from the
    record it found (used to state what the call does to the map). *)
Definition bumped (e : Env) (now : Z) (o : option Activity) : Activity :=
  let a := default {| count := 0; lastAttempt := now; blocked := false;
                      blockUntil := None |} o in
  if (threshold e <=? count a + 1) && negb (blocked a)
  then {| count := count a + 1; lastAttempt := now; blocked := true;
          blockUntil := Some (now + lockoutDuration e) |}
  else {| count := count a + 1; lastAttempt := now; blocked := blocked a;
          blockUntil := blockUntil a |}.

(** The counter of an identifier, 0 without a record. *)
Definition count_of (s : Store) (id : string) : Z :=
  from_option count 0 (s !! id).

(** A history of calls made against the shared map. *)
Inductive call :=
| Track (identifier : string) (now : Z)
| Ask (identifier : string) (now : Z).

(** Runs a history; every [isBlocked] answer is logged with its identifier
    and clock value. *)
Fixpoint run (e : Env) (cs : list call) (s : Store)
    : list (string * Z * bool) * Store :=
  match cs with
  | [] => ([], s)
  | Track i t :: cs' => run e cs' (trackSuspiciousActivity e t i "failed_login" s)
  | Ask i t :: cs' =>
      let '(b, s1) := isBlocked t i s in
      let '(log, s2) := run e cs' s1 in
      ((i, t, b) :: log, s2)
  end.

(** Number of failure recordings for [id] in a history. *)
Fixpoint failures (id : string) (cs : list call) : nat :=
  match cs with
  | [] => O
  | Track i _ :: cs' =>
      if decide (i = id) then S (failures id cs') else failures id cs'
  | Ask _ _ :: cs' => failures id cs'
  end.

(** The record found for an identifier is blocked with a deadline that has
    passed at clock value [t]: the case in which [isBlocked] resets it. *)
Definition elapsed (t : Z) (o : option Activity) : bool :=
  match o with
  | Some a =>
      blocked a && match blockUntil a with
                   | Some bu => bu <? t
                   | None => false
                   end
  | None => false
  end.

(** No [isBlocked] call on [id] in the history, run from [s], finds an
    elapsed deadline: the counter of [id] is never reset on the way. *)
Fixpoint quiet (e : Env) (id : string) (cs : list call) (s : Store) : bool :=
  match cs with
  | [] => true
  | Track i t :: cs' =>
      quiet e id cs' (trackSuspiciousActivity e t i "failed_login" s)
  | Ask i t :: cs' =>
      (negb (bool_decide (i = id)) || negb (elapsed t (s !! id)))
      && quiet e id cs' (isBlocked t i s).2
  end.

(** Every [isBlocked] call on [id] in the history is made at a clock value
    not past [bu]. *)
Fixpoint checked_by (id : string) (bu : Z) (cs : list call) : bool :=
  match cs with
  | [] => true
  | Track _ _ :: cs' => checked_by id bu cs'
  | Ask i t :: cs' =>
      (negb (bool_decide (i = id)) || (t <=? bu)) && checked_by id bu cs'
  end.

(** The record of [id], when present, has a non-negative counter and a
    deadline whenever it is blocked.  Holds of the empty map and is kept by
    both operations. *)
Definition record_ok (s : Store) (id : string) : Prop :=
  forall a, s !! id = Some a ->
    0 <= count a /\ (blocked a = true -> is_Some (blockUntil a)).

(** [id] has a record that counted at least [m] failures, is blocked as soon
    as the counter reached the threshold, and has a deadline when blocked. *)
Definition tracked (e : Env) (id : string) (m : Z) (s : Store) : Prop :=
  exists a, s !! id = Some a /\ m <= count a /\
    (threshold e <= count a -> blocked a = true) /\
    (blocked a = true -> is_Some (blockUntil a)).

(** [id] is blocked with deadline [bu]. *)
Definition blocked_until (id : string) (bu : Z) (s : Store) : Prop :=
  exists a, s !! id = Some a /\ blocked a = true /\ blockUntil a = Some bu.

End AbuseTracker.

(** ** Errors (src/middleware/errorHandler.ts) *)

Module Errors.

(** A thrown JavaScript object, with the members the handlers inspect.
    [name] and [message] are texts (a missing message behaves as the empty
    text everywhere it is read), [statusCode] is a number when present.
    The two members that only database errors carry may be missing:
    [keyValue] is [None] when [err.keyValue] is undefined or null, otherwise
    the list of its keys; [errors] is [None] when [err.errors] is undefined
    or null, otherwise the list of its values, each given by its [message]
    ([Some ""] when the value has none, as [join] prints it) or [None] when
    the value itself is null or undefined. *)
Record Error := {
  name : string;
  message : string;
  isAppError : bool;            (* [err instanceof AppError] *)
  statusCode : option Z;
  code : option (Z + string);   (* mongo error number or multer code *)
  keyValue : option (list string);
  errors : option (list (option string))
}.

(** [new Error(message)] *)
Definition mkError (msg : string) : Error :=
  {| name := "Error"; message := msg; isAppError := false;
     statusCode := None; code := None; keyValue := None; errors := None |}.

(** [new AppError(message, statusCode)]; the class does not rename the
    error, so its [name] is that of [Error]. *)
Definition AppError (msg : string) (status : Z) : Error :=
  {| name := "Error"; message := msg; isAppError := true;
     statusCode := Some status; code := None; keyValue := None;
     errors := None |}.

Definition oauthMessage (msg : string) : string :=
  if Text.includes "access_denied" msg then "OAuth access was denied by the user"
  else if Text.includes "invalid_grant" msg then "OAuth grant is invalid or expired"
  else if Text.includes "invalid_client" msg then "OAuth client configuration is invalid"
  else if Text.includes "invalid_request" msg then "OAuth request is malformed"
  else if Text.includes "server_error" msg then "OAuth provider server error"
  else if Text.includes "temporarily_unavailable" msg then "OAuth service temporarily unavailable"
  else if Text.includes "network" msg then "Network error during OAuth authentication"
  else "OAuth authentication failed".

Definition multerMessage (c : option (Z + string)) : string :=
  match c with
  | Some (inr "LIMIT_FILE_SIZE") => "File too large"
  | Some (inr "LIMIT_FILE_COUNT") => "Too many files"
  | Some (inr "LIMIT_UNEXPECTED_FILE") => "Unexpected file field"
  | _ => "File upload error"
  end.

Fixpoint join (sep : string) (l : list string) : string :=
  match l with
  | [] => ""
  | [x] => x
  | x :: r => x ++ sep ++ join sep r
  end.

(** [values.map((val) => val.message)]: reading the message of a value that
    is null or undefined throws, which is [None] here. *)
Fixpoint messages (values : list (option string)) : option (list string) :=
  match values with
  | [] => Some []
  | None :: _ => None
  | Some m :: rest => option_map (cons m) (messages rest)
  end.

End Errors.

(** ** The user record (src/types/index.ts, [IUser]) *)

Module Users.

Inductive Role := user | admin.

Record SocialAccounts := {
  google : option string;
  github : option string
}.

Record User := {
  _id : string;
  email : string;
  password : option string;
  firstName : string;
  lastName : string;
  avatar : option string;
  role : Role;
  isEmailVerified : bool;
  passwordResetToken : option string;
  passwordResetExpires : option Z;
  socialAccounts : SocialAccounts
}.

(** Modelled from the spec: models/User.ts (the mongoose model) is not among
    the sources.  The credential store is the collection of persisted user
    records; [findOne] returns the first record with the given email,
    [save] writes a loaded record back over the one with its [_id], and
    [create] appends a new record. *)
Abbreviation Store := (list User).

Definition findOne (mail : string) (db : Store) : option User :=
  List.find (fun u => String.eqb (email u) mail) db.

Definition save (u : User) (db : Store) : Store :=
  List.map (fun v => if String.eqb (_id v) (_id u) then u else v) db.

Definition create (u : User) (db : Store) : Store := db ++ [u].

End Users.

(** ** Signed credentials (src/utils/jwt.ts over the jsonwebtoken package) *)

Module Jwt.

Import Errors Users.

(** [JWTPayload] *)
Record JWTPayload := {
  userId : string;
  payload_email : string;
  payload_role : Role
}.

(** What a verified credential decodes to: the payload with the registered
    claims [iat] and [exp] (seconds) added by [jwt.sign]. *)
Record Claims := {
  payload : JWTPayload;
  iat : Z;
  exp : option Z
}.

(** A credential text, symbolically: either a text that is no well-formed
    JWT, or claims together with the secret under which their HS256
    signature verifies ([None] when it verifies under no secret, as after
    tampering with claims or signature). *)
Inductive Token :=
| Malformed (raw : string)
| Jws (claims : Claims) (verifiesUnder : option string).

(** The [ms] package: a time span text to milliseconds.  Whole amounts
    only; an amount with a decimal point is outside the model. *)
Definition ms_unit (u : string) : option Z :=
  if List.existsb (String.eqb u) ["milliseconds"; "millisecond"; "msecs"; "msec"; "ms"]
  then Some 1
  else if List.existsb (String.eqb u) ["seconds"; "second"; "secs"; "sec"; "s"]
  then Some 1000
  else if List.existsb (String.eqb u) ["minutes"; "minute"; "mins"; "min"; "m"]
  then Some (60 * 1000)
  else if List.existsb (String.eqb u) ["hours"; "hour"; "hrs"; "hr"; "h"]
  then Some (60 * 60 * 1000)
  else if List.existsb (String.eqb u) ["days"; "day"; "d"]
  then Some (24 * 60 * 60 * 1000)
  else if List.existsb (String.eqb u) ["weeks"; "week"; "w"]
  then Some (7 * 24 * 60 * 60 * 1000)
  else if List.existsb (String.eqb u) ["years"; "year"; "yrs"; "yr"; "y"]
  then Some (31557600000)
  else None.

Definition ms (str : string) : option Z :=
  if (100 <? String.length str)%nat then None
  else
    let '(neg, r) := match str with
                     | String "-" r => (true, r)
                     | _ => (false, str)
                     end in
    let '(ds, r) := Text.span Text.is_digit r in
    let '(_, u) := Text.span (Ascii.eqb " ") r in
    match ds with
    | "" => None
    | _ =>
        let n := if neg then - Text.digits_value ds else Text.digits_value ds in
        match u with
        | "" => Some n
        | _ => option_map (Z.mul n) (ms_unit (Text.toLowerCase u))
        end
    end.

(** [timespan(time, iat)] of jsonwebtoken: [Math.floor(iat + ms(time) / 1000)] *)
Definition timespan (time : string) (iat : Z) : option Z :=
  option_map (fun v => iat + v / 1000) (ms time).

(** [jwt.sign(payload, secret, { expiresIn })] at clock value [now]. *)
Definition sign (p : JWTPayload) (secret expiresIn : string) (now : Z)
    : Error + Token :=
  let timestamp := now / 1000 in
  match timespan expiresIn timestamp with
  | None =>
      inl (mkError "expiresIn should be a number of seconds or string representing a timespan")
  | Some x =>
      inr (Jws {| payload := p; iat := timestamp; exp := Some x |} (Some secret))
  end.

(** [jwt.verify(token, secret)] at clock value [now]: the signature is
    checked before the expiry. *)
Definition verify (t : Token) (secret : string) (now : Z) : Error + Claims :=
  match t with
  | Malformed _ =>
      inl {| name := "JsonWebTokenError"; message := "jwt malformed";
             isAppError := false; statusCode := None; code := None;
             keyValue := None; errors := None |}
  | Jws c k =>
      if bool_decide (k = Some secret) then
        match exp c with
        | Some x =>
            if x <=? now / 1000
            then inl {| name := "TokenExpiredError"; message := "jwt expired";
                        isAppError := false; statusCode := None; code := None;
                        keyValue := None; errors := None |}
            else inr c
        | None => inr c
        end
      else
        inl {| name := "JsonWebTokenError"; message := "invalid signature";
               isAppError := false; statusCode := None; code := None;
               keyValue := None; errors := None |}
  end.

(** The [exp] claim of a credential, if it has one. *)
Definition expiry (t : Token) : option Z :=
  match t with
  | Jws c _ => exp c
  | Malformed _ => None
  end.

(** The expiry of [t] has passed at clock value [now]. *)
Definition expired (now : Z) (t : Token) : Prop :=
  exists x, expiry t = Some x /\ 1000 * x <= now.

(** The signature of [t] does not verify under [secret]. *)
Definition forged (secret : string) (t : Token) : Prop :=
  exists c k, t = Jws c k /\ k <> Some secret.

Definition payloadOf (u : User) : JWTPayload :=
  {| userId := _id u; payload_email := email u; payload_role := role u |}.

Definition generateAccessToken (e : Env) (now : Z) (u : User) : Error + Token :=
  let payload := payloadOf u in
  if env_missing (JWT_SECRET e) then inl (mkError "JWT_SECRET is not defined")
  else sign payload (or_else (JWT_SECRET e) "") (or_else (JWT_EXPIRES_IN e) "7d") now.

Definition generateRefreshToken (e : Env) (now : Z) (u : User) : Error + Token :=
  let payload := payloadOf u in
  if env_missing (JWT_REFRESH_SECRET e)
  then inl (mkError "JWT_REFRESH_SECRET is not defined")
  else sign payload (or_else (JWT_REFRESH_SECRET e) "")
            (or_else (JWT_REFRESH_EXPIRES_IN e) "30d") now.

Definition verifyAccessToken (e : Env) (now : Z) (t : Token) : Error + Claims :=
  if env_missing (JWT_SECRET e) then inl (mkError "JWT_SECRET is not defined")
  else match verify t (or_else (JWT_SECRET e) "") now with
       | inr c => inr c
       | inl _ => inl (mkError "Invalid access token")
       end.

Definition verifyRefreshToken (e : Env) (now : Z) (t : Token) : Error + Claims :=
  if env_missing (JWT_REFRESH_SECRET e)
  then inl (mkError "JWT_REFRESH_SECRET is not defined")
  else match verify t (or_else (JWT_REFRESH_SECRET e) "") now with
       | inr c => inr c
       | inl _ => inl (mkError "Invalid refresh token")
       end.

End Jwt.

(** ** Responses and the global error handler (src/middleware/errorHandler.ts) *)

Module Http.

Import Errors Users.

(** The user members a login response shows. *)
Record UserView := {
  view_id : string;
  view_email : string;
  view_firstName : string;
  view_lastName : string;
  view_role : Role;
  view_isEmailVerified : bool
}.

(** The [data] member of a successful login response. *)
Record LoginData := {
  data_user : UserView;
  accessToken : Jwt.Token;
  refreshToken : Jwt.Token;
  sessionFingerprint : string
}.

(** An HTTP response: status and the JSON body members that the handlers
    of this development set.  The [stack] member that [errorHandler] adds
    when NODE_ENV is [development] is not modelled. *)
Record Response := {
  status : Z;
  success : bool;
  body_message : string;
  retryAfter : option Z;
  data : option LoginData
}.

Definition json (st : Z) (ok : bool) (msg : string) : Response :=
  {| status := st; success := ok; body_message := msg; retryAfter := None;
     data := None |}.

(** The global handler: each test replaces [error] when it applies, the
    last applicable one wins; the response is built from what is left.
    The result is [None] when the handler itself throws before it has sent
    anything: [Object.keys(err.keyValue)] and [Object.values(err.errors)]
    throw a TypeError on a missing member, and so does [val.message] on a
    missing value.  What Express does with that second error is outside
    these sources. *)
Definition errorHandler (err : Error) : option Response :=
  let error := (statusCode err, message err) in
  let error := if String.eqb (name err) "CastError"
               then (Some 404, "Resource not found") else error in
  error ← match code err with
          | Some (inl 11000) =>
              match keyValue err with
              | Some keys =>
                  Some (Some 400,
                        "Duplicate field value: " ++ hd "undefined" keys
                          ++ ". Please use another value.")
              | None => None
              end
          | _ => Some error
          end;
  error ← (if String.eqb (name err) "ValidationError"
           then match errors err with
                | Some values =>
                    option_map (fun ms => (Some 400, join ", " ms))
                               (messages values)
                | None => None
                end
           else Some error);
  let error := if String.eqb (name err) "JsonWebTokenError"
               then (Some 401, "Invalid token") else error in
  let error := if String.eqb (name err) "TokenExpiredError"
               then (Some 401, "Token expired") else error in
  let error := if String.eqb (name err) "OAuth2Error"
                  || Text.includes "oauth" (message err)
               then (Some 400, oauthMessage (message err)) else error in
  let error := if String.eqb (name err) "AuthenticationError"
               then (Some 401, "Authentication failed") else error in
  let error := if String.eqb (name err) "MulterError"
               then (Some 400, multerMessage (code err)) else error in
  (* const statusCode = error.statusCode || 500 *)
  let st := match fst error with
            | None | Some 0 => 500
            | Some n => n
            end in
  (* const message = error.message || 'Internal Server Error' *)
  let msg := match snd error with
             | "" => "Internal Server Error"
             | m => m
             end in
  Some (json st false msg).

(** What a route handler wrapped in [asyncHandler] leaves behind: a response
    it sent itself, or an error passed to [next]. *)
Inductive Outcome :=
| Sent (r : Response)
| Thrown (err : Error).

(** The response the client receives from these handlers: [asyncHandler]
    forwards a rejection to [next], and the application mounts
    [errorHandler] last.  [None] when [errorHandler] throws. *)
Definition respond (o : Outcome) : option Response :=
  match o with
  | Sent r => Some r
  | Thrown err => errorHandler err
  end.

End Http.

(** ** OAuth account linking (src/config/passport.ts) *)

Module Passport.

Import Errors Users.

(** The members of the provider profile that the verify callbacks read. *)
Record Profile := {
  id : string;
  emails : list string;          (* profile.emails[i].value *)
  photos : list string;          (* profile.photos[i].value *)
  givenName : option string;     (* profile.name?.givenName *)
  familyName : option string;    (* profile.name?.familyName *)
  displayName : option string
}.

(** A text is truthy unless it is absent or empty. *)
Definition truthy (v : option string) : bool :=
  match v with
  | None | Some "" => false
  | Some _ => true
  end.

(** [v || ''] *)
Definition or_empty (v : option string) : string :=
  match v with
  | Some s => s
  | None => ""
  end.

(** [displayName.split(' ')[0]] *)
Fixpoint firstWord (s : string) : string :=
  match s with
  | EmptyString => EmptyString
  | String c r => if Ascii.eqb c " " then EmptyString else String c (firstWord r)
  end.

(** [displayName.split(' ').slice(1).join(' ')] : what follows the first
    space. *)
Fixpoint afterFirstWord (s : string) : string :=
  match s with
  | EmptyString => EmptyString
  | String c r => if Ascii.eqb c " " then r else afterFirstWord r
  end.

(** [done(err, false)] or [done(null, user)] *)
Inductive Done :=
| DoneError (err : Error)
| DoneUser (u : User).

(** if (!user.avatar && profile.photos?.[0]?.value) user.avatar = ... *)
Definition backfillAvatar (p : Profile) (u : User) : option string :=
  if negb (truthy (avatar u)) && truthy (hd_error (photos p))
  then hd_error (photos p) else avatar u.

(** The verify callback of the Google strategy.  [newId] is the [_id] the
    store gives to a created record. *)
Definition googleVerify (newId : string) (p : Profile) (db : Store)
    : Done * Store :=
  let email := hd_error (emails p) in
  if negb (truthy email) then
    (DoneError (mkError "Email not found in Google profile"), db)
  else
    let email := or_empty email in
    match findOne email db with
    | Some u =>
        (* user.socialAccounts.google = profile.id *)
        let u :=
          {| _id := _id u; email := Users.email u; password := password u;
             firstName := firstName u; lastName := lastName u;
             avatar := backfillAvatar p u;
             role := role u; isEmailVerified := isEmailVerified u;
             passwordResetToken := passwordResetToken u;
             passwordResetExpires := passwordResetExpires u;
             socialAccounts :=
               {| google := Some (id p);
                  github := github (socialAccounts u) |} |} in
        (DoneUser u, save u db)
    | None =>
        let u :=
          {| _id := newId; email := email; password := None;
             firstName := or_empty (givenName p);
             lastName := or_empty (familyName p);
             avatar := hd_error (photos p);
             role := user; isEmailVerified := true;
             passwordResetToken := None; passwordResetExpires := None;
             socialAccounts := {| google := Some (id p); github := None |} |} in
        (DoneUser u, create u db)
    end.

(** The verify callback of the GitHub strategy. *)
Definition githubVerify (newId : string) (p : Profile) (db : Store)
    : Done * Store :=
  let email := hd_error (emails p) in
  if negb (truthy email) then
    (DoneError (mkError "Email not found in GitHub profile"), db)
  else
    let email := or_empty email in
    match findOne email db with
    | Some u =>
        (* user.socialAccounts.github = profile.id *)
        let u :=
          {| _id := _id u; email := Users.email u; password := password u;
             firstName := firstName u; lastName := lastName u;
             avatar := backfillAvatar p u;
             role := role u; isEmailVerified := isEmailVerified u;
             passwordResetToken := passwordResetToken u;
             passwordResetExpires := passwordResetExpires u;
             socialAccounts :=
               {| google := google (socialAccounts u);
                  github := Some (id p) |} |} in
        (DoneUser u, save u db)
    | None =>
        let u :=
          {| _id := newId; email := email; password := None;
             firstName := firstWord (or_empty (displayName p));
             lastName := afterFirstWord (or_empty (displayName p));
             avatar := hd_error (photos p);
             role := user; isEmailVerified := true;
             passwordResetToken := None; passwordResetExpires := None;
             socialAccounts := {| google := None; github := Some (id p) |} |} in
        (DoneUser u, create u db)
    end.

Inductive Provider := Google | GitHub.

Definition verifyCallback (pr : Provider) :=
  match pr with
  | Google => googleVerify
  | GitHub => githubVerify
  end.

(** The id stored on a record for a provider. *)
Definition providerId (pr : Provider) (u : User) : option string :=
  match pr with
  | Google => google (socialAccounts u)
  | GitHub => github (socialAccounts u)
  end.

End Passport.

(** ** Input sanitizer (src/middleware/security.ts, [sanitizeInput]) *)

Module Sanitizer.

(** A parsed request body or query value, as [sanitizeObject] receives it.
    An object is given by the list that [Object.entries] yields for it: its
    own enumerable properties, those whose key is an array index first in
    ascending order, then the others in the order of their creation.  This
    is the only thing the code reads of an object.  A number is passed
    through untouched; integers stand for the numbers. *)
#[local] Unset Elimination Schemes.
Inductive Json :=
| JNull
| JBool (b : bool)
| JNumber (n : Z)
| JString (s : string)
| JArray (items : list Json)
| JObject (fields : list (string * Json)).
#[local] Set Elimination Schemes.

(** What an object inherits from: [Object.prototype], as every object made
    by a literal does at first; nothing ([null]); or a value of the
    request, after an assignment to [__proto__] has replaced the
    prototype. *)
Inductive Proto (V : Type) :=
| ObjectPrototype
| NullPrototype
| Replaced (v : V).
Arguments ObjectPrototype {V}.
Arguments NullPrototype {V}.
Arguments Replaced {V} v.

(** A value that [sanitizeObject] returns.  An object it made is given by
    its prototype and its own properties in the order of their creation
    (the code never enumerates them); only an object or an array ever
    becomes a prototype. *)
#[local] Unset Elimination Schemes.
Inductive Value :=
| VNull
| VBool (b : bool)
| VNumber (n : Z)
| VString (s : string)
| VArray (items : list Value)
| VObject (proto : Proto Value) (own : list (string * Value)).
#[local] Set Elimination Schemes.

(** A pattern of a global replacement, as the length of its match at the
    start of a text, if it matches there. *)
Definition matcher := string -> option nat.

(** [/lit/gi] for a literal text. *)
Definition literal (lit : string) : matcher :=
  fun s => if Text.prefix_ci lit s then Some (String.length lit) else None.

(** Distance to the first place where the closing tag matches, crossing no
    line terminator: the lazy [.*?] followed by the closing tag. *)
Fixpoint lazy_to_close (s : string) : option nat :=
  if Text.prefix_ci "</script>" s then Some O
  else match s with
       | EmptyString => None
       | String c r =>
           if Text.is_line_terminator c then None
           else option_map S (lazy_to_close r)
       end.

(** [/<script[^>]*>.*?<\/script>/gi].  The greedy [[^>]*] can only stop in
    front of the first [>], so the match is determined. *)
Definition script_tag : matcher :=
  fun s =>
    if Text.prefix_ci "<script" s then
      let '(attrs, r) := Text.span (fun c => negb (Ascii.eqb c ">")) (Text.drop 7 s) in
      match r with
      | String ">" r' =>
          option_map (fun n => (7 + String.length attrs + 1 + n + 9)%nat)
                     (lazy_to_close r')
      | _ => None
      end
    else None.

(** [/on\w+\s*=/gi].  Both greedy runs are maximal in any match. *)
Definition event_handler : matcher :=
  fun s =>
    if Text.prefix_ci "on" s then
      let '(w, r) := Text.span Text.is_word (Text.drop 2 s) in
      let '(sp, r) := Text.span Text.is_space r in
      match w, r with
      | String _ _, String "=" _ =>
          Some (2 + String.length w + String.length sp + 1)%nat
      | _, _ => None
      end
    else None.

(** [s.replace(/p/g, '')] as a left-to-right scan: [skip] counts the
    characters of the current match still to be dropped. *)
Fixpoint replace_from (m : matcher) (skip : nat) (s : string) : string :=
  match s with
  | EmptyString => EmptyString
  | String c r =>
      match skip with
      | S k => replace_from m k r
      | O =>
          match m s with
          | Some (S k) => replace_from m k r
          | _ => String c (replace_from m O r)
          end
      end
  end.

Definition remove_all (m : matcher) (s : string) : string := replace_from m O s.

(** The patterns, in the order of the chain of replacements. *)
Definition patterns : list matcher :=
  [ literal "$where"; literal "$ne"; literal "$gt"; literal "$lt";
    literal "$regex"; literal "$expr"; literal "$jsonSchema"; literal "$mod";
    literal "$text"; literal "$search"; literal "javascript:";
    script_tag; event_handler ].

Definition sanitizeString (s : string) : string :=
  Text.trim (fold_left (fun acc m => remove_all m acc) patterns s).

(** [[a-zA-Z0-9_.-]] *)
Definition is_key_char (c : ascii) : bool :=
  Text.is_lower c || Text.is_upper c || Text.is_digit c ||
  (Text.code c =? 95)%N || (Text.code c =? 46)%N || (Text.code c =? 45)%N.

(** [key.replace(/[^a-zA-Z0-9_.-]/g, '')] *)
Fixpoint cleanKey (key : string) : string :=
  match key with
  | EmptyString => EmptyString
  | String c r => if is_key_char c then String c (cleanKey r) else cleanKey r
  end.

Fixpoint replace_property (k : string) (v : Value) (o : list (string * Value))
    : list (string * Value) :=
  match o with
  | [] => []
  | (k', v') :: r =>
      if String.eqb k' k then (k', v) :: r else (k', v') :: replace_property k v r
  end.

Definition has_property (k : string) (o : list (string * Value)) : bool :=
  List.existsb (fun kv => String.eqb (fst kv) k) o.

(** The search for the property [__proto__] that starts at the object [v]
    ends at the accessor of [Object.prototype]: no object on the way has an
    own property of that name and the chain does not end in [null].  An
    array has no own property of that name and inherits, through
    [Array.prototype], from [Object.prototype]. *)
Fixpoint reaches_accessor (v : Value) : bool :=
  match v with
  | VObject p own =>
      negb (has_property "__proto__" own) &&
      match p with
      | ObjectPrototype => true
      | NullPrototype => false
      | Replaced v' => reaches_accessor v'
      end
  | _ => true
  end.

Definition inherits_accessor (p : Proto Value) : bool :=
  match p with
  | ObjectPrototype => true
  | NullPrototype => false
  | Replaced v => reaches_accessor v
  end.

(** The object being filled: its prototype and its own properties. *)
Abbreviation Sanitized := (Proto Value * list (string * Value))%type.

(** [sanitized[k] = v], the ordinary [[Set]] of ECMAScript in an
    environment whose built-in prototypes are as the language defines
    them.  An own property is overwritten in its place.  Otherwise the
    prototype chain is searched: every property found there is a writable
    data property, for which a new own property is created, with the one
    exception of [__proto__] on [Object.prototype], an accessor whose
    setter makes an object or an array the prototype, [null] no prototype,
    and ignores any other value.  A name found nowhere is created as own
    property. *)
Definition set_property (k : string) (v : Value) (o : Sanitized) : Sanitized :=
  let '(p, own) := o in
  if has_property k own then (p, replace_property k v own)
  else if String.eqb k "__proto__" && inherits_accessor p then
    (match v with
     | VNull => NullPrototype
     | VObject _ _ | VArray _ => Replaced v
     | _ => p
     end, own)
  else (p, (own ++ [(k, v)])%list).

(** The loop over [Object.entries(obj)], with [f] for the recursive call. *)
Fixpoint sanitizeEntries (f : Json -> Value) (fs : list (string * Json))
    (sanitized : Sanitized) : Sanitized :=
  match fs with
  | [] => sanitized
  | (key, value) :: rest =>
      let k := cleanKey key in
      sanitizeEntries f rest
        (match k with
         | "" => sanitized
         | _ => set_property k (f value) sanitized
         end)
  end.

Fixpoint sanitizeObject (obj : Json) : Value :=
  match obj with
  | JString s => VString (sanitizeString s)
  | JArray items => VArray (List.map sanitizeObject items)
  | JObject fields =>
      let sanitized :=
        sanitizeEntries sanitizeObject fields (ObjectPrototype, []) in
      VObject sanitized.1 sanitized.2
  | JNull => VNull
  | JBool b => VBool b
  | JNumber n => VNumber n
  end.

(** A request value that is left as it is. *)
Fixpoint asValue (v : Json) : Value :=
  match v with
  | JNull => VNull
  | JBool b => VBool b
  | JNumber n => VNumber n
  | JString s => VString s
  | JArray items => VArray (List.map asValue items)
  | JObject fields =>
      VObject ObjectPrototype (List.map (fun kv => (kv.1, asValue kv.2)) fields)
  end.

(** [if (v)] on a request member; [None] is [undefined]. *)
Definition json_truthy (v : option Json) : bool :=
  match v with
  | None | Some JNull | Some (JBool false) | Some (JNumber 0) | Some (JString "") => false
  | Some _ => true
  end.

(** The middleware on the two request members it rewrites. *)
Definition sanitizeInput (body query : option Json)
    : option Value * option Value :=
  ((if json_truthy body then option_map sanitizeObject body
    else option_map asValue body),
   (if json_truthy query then option_map sanitizeObject query
    else option_map asValue query)).

(** [m] matches somewhere in [s]. *)
Fixpoint occurs (m : matcher) (s : string) : bool :=
  match m s with
  | Some _ => true
  | None => match s with
            | EmptyString => false
            | String _ r => occurs m r
            end
  end.

(** No listed pattern matches anywhere in [s]. *)
Definition pattern_free (s : string) : bool :=
  List.forallb (fun m => negb (occurs m s)) patterns.

Fixpoint all_chars (f : ascii -> bool) (s : string) : bool :=
  match s with
  | EmptyString => true
  | String c r => f c && all_chars f r
  end.

(** A property holds of every text of a value, at any depth, replaced
    prototypes included. *)
Fixpoint strings_all (P : string -> bool) (v : Value) : bool :=
  match v with
  | VString s => P s
  | VArray items => List.forallb (strings_all P) items
  | VObject p own =>
      match p with
      | Replaced v' => strings_all P v'
      | _ => true
      end && List.forallb (fun kv => strings_all P (snd kv)) own
  | _ => true
  end.

(** A property holds of every own key of every object of a value, at any
    depth, replaced prototypes included. *)
Fixpoint keys_all (P : string -> bool) (v : Value) : bool :=
  match v with
  | VArray items => List.forallb (keys_all P) items
  | VObject p own =>
      match p with
      | Replaced v' => keys_all P v'
      | _ => true
      end && List.forallb (fun kv => P (fst kv) && keys_all P (snd kv)) own
  | _ => true
  end.

(** A key as [sanitizeObject] writes it: non-empty, over [[A-Za-z0-9_.-]]. *)
Definition clean_key (k : string) : bool :=
  all_chars is_key_char k && negb (String.eqb k "").

Definition fields_clean (fs : list (string * Value)) : bool :=
  forallb (fun kv => clean_key kv.1 && keys_all clean_key kv.2) fs.

Definition proto_clean (p : Proto Value) : bool :=
  match p with
  | Replaced v => keys_all clean_key v
  | _ => true
  end.

Definition sanitized_clean (o : Sanitized) : bool :=
  proto_clean o.1 && fields_clean o.2.

(** The characters of a text. *)
Abbreviation chars := list_ascii_of_string.

End Sanitizer.

(** ** Block check and route handlers
    (src/middleware/security.ts, src/controllers/authController.ts) *)

Module Controllers.

Import Errors Users Http.

(** The request members the handlers read. *)
Record Request := {
  ip : option string;             (* req.ip *)
  path : string;                  (* req.path *)
  body_email : option string;     (* req.body?.email *)
  body_password : string          (* req.body.password *)
}.

(** [Math.ceil((blockUntil - now) / 1000)], or 900 without a deadline. *)
Definition retryAfterOf (now : Z) (a : option AbuseTracker.Activity) : Z :=
  match a with
  | Some a =>
      match AbuseTracker.blockUntil a with
      | Some bu => - ((now - bu) / 1000)
      | None => 900
      end
  | None => 900
  end.

Definition tooMany (msg : string) (retry : Z) : Response :=
  {| status := 429; success := false; body_message := msg;
     retryAfter := Some retry; data := None |}.

(** The [checkBlocked] middleware: [Some r] when it answers itself, [None]
    when it calls [next()]. *)
Definition checkBlocked (now : Z) (req : Request) (s : AbuseTracker.Store)
    : option Response * AbuseTracker.Store :=
  let ip := or_else (ip req) "unknown" in
  let email := option_map Text.toLowerCase (body_email req) in
  let '(b, s) := AbuseTracker.isBlocked now ip s in
  if b then
    (Some (tooMany "Access temporarily blocked due to suspicious activity. Please try again later."
                   (retryAfterOf now (s !! ip))), s)
  else if Passport.truthy email && Text.includes "/auth/" (path req) then
    let emailKey := "email:" ++ Passport.or_empty email in
    let '(b, s) := AbuseTracker.isBlocked now emailKey s in
    if b then
      (Some (tooMany "Account temporarily locked due to multiple failed login attempts."
                     (retryAfterOf now (s !! emailKey))), s)
    else (None, s)
  else (None, s).

(** A text interpolated into a template literal. *)
Definition interpolate (v : option string) : string :=
  match v with
  | Some s => s
  | None => "undefined"
  end.

Definition clearPasswordResetToken (u : User) : User :=
  {| _id := _id u; email := email u; password := password u;
     firstName := firstName u; lastName := lastName u; avatar := avatar u;
     role := role u; isEmailVerified := isEmailVerified u;
     passwordResetToken := None; passwordResetExpires := None;
     socialAccounts := socialAccounts u |}.

Definition viewOf (u : User) : UserView :=
  {| view_id := _id u; view_email := email u; view_firstName := firstName u;
     view_lastName := lastName u; view_role := role u;
     view_isEmailVerified := isEmailVerified u |}.

Definition genericResetMessage : string :=
  "If an account with that email exists, a password reset link has been sent.".

Section Handlers.

(** Members of the user model and of the mail utility, neither of which is
    among the sources.  [comparePassword u p] is [None] when the promise
    rejects; [sendPasswordReset mail name url] tells whether the mail was
    handed over. *)
Variable comparePassword : User -> string -> option bool.
Variable sha256 : string -> string.
Variable sendPasswordReset : string -> string -> string -> bool.

(** Modelled from the spec: [user.generatePasswordResetToken()] of
    models/User.ts stores the SHA-256 digest of a random value with a one
    hour expiry and returns the raw value. *)
Definition generatePasswordResetToken (now : Z) (raw : string) (u : User) : User :=
  {| _id := _id u; email := email u; password := password u;
     firstName := firstName u; lastName := lastName u; avatar := avatar u;
     role := role u; isEmailVerified := isEmailVerified u;
     passwordResetToken := Some (sha256 raw);
     passwordResetExpires := Some (now + 60 * 60 * 1000);
     socialAccounts := socialAccounts u |}.

(** The body of the [try] block of [login] once the credentials were
    accepted. *)
Definition loginAccepted (e : Env) (now : Z) (fingerprint : string) (u : User)
    : Outcome :=
  if negb (isEmailVerified u) then
    Thrown (AppError "Please verify your email before logging in. Check your inbox for a verification link." 401)
  else
    match Jwt.generateAccessToken e now u with
    | inl err => Thrown err
    | inr access =>
        match Jwt.generateRefreshToken e now u with
        | inl err => Thrown err
        | inr refresh =>
            Sent {| status := 200; success := true;
                    body_message := "Login successful"; retryAfter := None;
                    data := Some {| data_user := viewOf u;
                                    accessToken := access;
                                    refreshToken := refresh;
                                    sessionFingerprint := fingerprint |} |}
        end
    end.

(** [catch (error)] of [login]: an [AppError] is thrown again, anything
    else becomes a 500. *)
Definition loginCatch (o : Outcome) : Outcome :=
  match o with
  | Thrown err =>
      if isAppError err then Thrown err
      else Thrown (AppError "Login failed. Please try again." 500)
  | Sent r => Sent r
  end.

(** [login]; [fingerprint] is the text of [crypto.randomBytes(32)]. *)
Definition login (e : Env) (now : Z) (fingerprint : string) (req : Request)
    (db : Users.Store) (s : AbuseTracker.Store) : Outcome * AbuseTracker.Store :=
  let ip := or_else (ip req) "unknown" in
  match body_email req with
  | None =>
      (Thrown {| name := "TypeError";
                 message := "Cannot read properties of undefined (reading 'toLowerCase')";
                 isAppError := false; statusCode := None; code := None;
                 keyValue := None; errors := None |}, s)
  | Some email =>
      let normalizedEmail := Text.trim (Text.toLowerCase email) in
      let user := findOne normalizedEmail db in
      let verdict :=
        match user with
        | None => Some false
        | Some u => comparePassword u (body_password req)
        end in
      match user, verdict with
      | _, None => (loginCatch (Thrown (mkError "comparePassword rejected")), s)
      | Some u, Some true => (loginCatch (loginAccepted e now fingerprint u), s)
      | _, _ =>
          let s := AbuseTracker.trackSuspiciousActivity e now
                     ("email:" ++ normalizedEmail) "failed_login" s in
          let s := AbuseTracker.trackSuspiciousActivity e now ip "failed_login" s in
          (loginCatch (Thrown (AppError "Invalid email or password" 401)), s)
      end
  end.

(** The credential check of [login] fails for the request: no user has the
    normalized email address, or the password does not compare equal. *)
Definition credentialsFail (req : Request) (db : Users.Store) : bool :=
  match body_email req with
  | None => false
  | Some email =>
      match findOne (Text.trim (Text.toLowerCase email)) db with
      | None => true
      | Some u =>
          match comparePassword u (body_password req) with
          | Some false => true
          | _ => false
          end
      end
  end.

(** A sequence of login requests, each with its clock value and random
    fingerprint, handled one after the other. *)
Fixpoint logins (e : Env) (attempts : list (Z * string * Request))
    (db : Users.Store) (s : AbuseTracker.Store)
    : list Outcome * AbuseTracker.Store :=
  match attempts with
  | [] => ([], s)
  | (now, fingerprint, req) :: rest =>
      let '(o, s1) := login e now fingerprint req db s in
      let '(os, s2) := logins e rest db s1 in
      (o :: os, s2)
  end.

(** [forgotPassword]; [raw] is the random value of the reset token. *)
Definition forgotPassword (e : Env) (now : Z) (raw : string) (req : Request)
    (db : Users.Store) : Outcome * Users.Store :=
  match body_email req with
  | None =>
      (Thrown {| name := "TypeError";
                 message := "Cannot read properties of undefined (reading 'toLowerCase')";
                 isAppError := false; statusCode := None; code := None;
                 keyValue := None; errors := None |}, db)
  | Some email =>
      match findOne (Text.toLowerCase email) db with
      | None =>
          (* Don't reveal if user exists or not for security *)
          (Sent (json 200 true genericResetMessage), db)
      | Some u =>
          let u := generatePasswordResetToken now raw u in
          let db := save u db in
          let resetUrl :=
            interpolate (FRONTEND_URL e) ++ "/reset-password?token=" ++ raw in
          if sendPasswordReset (Users.email u) (firstName u) resetUrl then
            (Sent (json 200 true genericResetMessage), db)
          else
            let u := clearPasswordResetToken u in
            (Thrown (AppError "Email could not be sent" 500), save u db)
      end
  end.

End Handlers.

(** The calls that a sequence of failed logins makes on the abuse tracker. *)
Fixpoint failureCalls (attempts : list (Z * string * Request))
    : list AbuseTracker.call :=
  match attempts with
  | [] => []
  | (now, _, req) :: rest =>
      AbuseTracker.Track
        ("email:" ++ Text.trim (Text.toLowerCase (Passport.or_empty (body_email req))))
        now
      :: AbuseTracker.Track (or_else (ip req) "unknown") now
      :: failureCalls rest
  end.

End Controllers.

(** ** Sample values *)

Module Sample.

Import Users.

(** An environment with both secrets and nothing else configured. *)
Definition env : Env :=
  {| JWT_SECRET := Some "access-secret"; JWT_EXPIRES_IN := None;
     JWT_REFRESH_SECRET := Some "refresh-secret";
     JWT_REFRESH_EXPIRES_IN := None;
     SUSPICIOUS_LOGIN_THRESHOLD := None; ACCOUNT_LOCKOUT_DURATION := None;
     FRONTEND_URL := Some "http://localhost:3000" |}.

(** The same with a text that is no time span as access lifetime. *)
Definition env_bad_ttl : Env :=
  {| JWT_SECRET := Some "access-secret"; JWT_EXPIRES_IN := Some "soon";
     JWT_REFRESH_SECRET := Some "refresh-secret";
     JWT_REFRESH_EXPIRES_IN := None;
     SUSPICIOUS_LOGIN_THRESHOLD := None; ACCOUNT_LOCKOUT_DURATION := None;
     FRONTEND_URL := Some "http://localhost:3000" |}.

(** A user who registered with a password, has not verified the email
    address, and has a Google account linked. *)
Definition alice : User :=
  {| _id := "u1"; email := "a@b.com"; password := Some "hash-of-Str0ng!Pass";
     firstName := "Alice"; lastName := "Doe"; avatar := None;
     role := user; isEmailVerified := false;
     passwordResetToken := None; passwordResetExpires := None;
     socialAccounts := {| google := Some "g-first"; github := None |} |}.

Definition db : Users.Store := [alice].

(** A credential for alice, signed with the access secret, that expired at
    second 1000; and one that expires at second 9000 whose signature
    verifies under no secret. *)
Definition stale_token : Jwt.Token :=
  Jwt.Jws {| Jwt.payload := Jwt.payloadOf alice; Jwt.iat := 100;
             Jwt.exp := Some 1000 |} (Some "access-secret").

Definition forged_token : Jwt.Token :=
  Jwt.Jws {| Jwt.payload := Jwt.payloadOf alice; Jwt.iat := 100;
             Jwt.exp := Some 9000 |} None.

(** A provider profile with alice's email address and another provider id,
    and one with an address that no record has. *)
Definition profile : Passport.Profile :=
  {| Passport.id := "g-second"; Passport.emails := ["a@b.com"];
     Passport.photos := ["https://img.example/a.png"];
     Passport.givenName := Some "Alice"; Passport.familyName := Some "Doe";
     Passport.displayName := Some "Alice Doe" |}.

Definition stranger : Passport.Profile :=
  {| Passport.id := "g-third"; Passport.emails := ["c@d.com"];
     Passport.photos := [];
     Passport.givenName := Some "Carol"; Passport.familyName := None;
     Passport.displayName := Some "Carol" |}.

(** Login requests from one address for three different accounts, with
    wrong passwords or unknown addresses. *)
Definition attempt (mail : string) : Controllers.Request :=
  {| Controllers.ip := Some "1.2.3.4"; Controllers.path := "/api/auth/login";
     Controllers.body_email := Some mail;
     Controllers.body_password := "guess" |}.

Definition attempts : list (Z * string * Controllers.Request) :=
  [ (1000, "f1", attempt "a@b.com"); (2000, "f2", attempt "A@B.com ");
    (3000, "f3", attempt "c@d.com"); (4000, "f4", attempt "e@f.com");
    (5000, "f5", attempt "a@b.com") ].

(** Five more failed logins from the same address for five accounts, long
    after the lockout that [attempts] brings about has run out. *)
Definition later_attempts : list (Z * string * Controllers.Request) :=
  [ (2000000, "g1", attempt "a@b.com"); (2001000, "g2", attempt "c@d.com");
    (2002000, "g3", attempt "e@f.com"); (2003000, "g4", attempt "g@h.com");
    (2004000, "g5", attempt "i@j.com") ].

(** A password check that accepts one password for every user, a digest,
    and mail transports that always, or never, hand the mail over. *)
Definition comparePassword (u : User) (candidate : string) : option bool :=
  Some (String.eqb candidate "Str0ng!Pass").

Definition sha256 (raw : string) : string := "sha256:" ++ raw.

Definition mail_up (mail name url : string) : bool := true.
Definition mail_down (mail name url : string) : bool := false.

(** A request body whose texts put listed patterns together once the
    sanitizer has removed what it finds. *)
Definition crafted_body : Sanitizer.Json :=
  Sanitizer.JObject
    [ ("filter", Sanitizer.JString "$$nene");
      ("note", Sanitizer.JString "<scr<script></script>ipt>alert(1)</script>");
      ("link", Sanitizer.JArray [Sanitizer.JString "javajavascript:script:x"]);
      ("attr", Sanitizer.JString "oonclick=nclick=x") ].

(** Five failures recorded for one address, each after a block check. *)
Definition five_failures : list AbuseTracker.call :=
  [ AbuseTracker.Ask "1.2.3.4" 900; AbuseTracker.Track "1.2.3.4" 1000;
    AbuseTracker.Ask "1.2.3.4" 1900; AbuseTracker.Track "1.2.3.4" 2000;
    AbuseTracker.Ask "1.2.3.4" 2900; AbuseTracker.Track "1.2.3.4" 3000;
    AbuseTracker.Ask "1.2.3.4" 3900; AbuseTracker.Track "1.2.3.4" 4000;
    AbuseTracker.Ask "1.2.3.4" 4900; AbuseTracker.Track "1.2.3.4" 5000 ].

End Sample.

(** ** Periodic clean-up of the abuse tracker (src/middleware/security.ts) *)

Module Maintenance.

Import AbuseTracker.

(** The hourly [setInterval] callback: every record whose last attempt is
    more than a day old is deleted, whatever its block state. *)
Definition sweep (now : Z) (s : Store) : Store :=
  let dayAgo := now - 24 * 60 * 60 * 1000 in
  filter (fun kv => ~ (lastAttempt kv.2 < dayAgo)) s.

(** [id] has no record, or a record that is not blocked, and [c] failures
    counted. *)
Definition unblocked (id : string) (c : Z) (s : Store) : Prop :=
  match s !! id with
  | None => c = 0
  | Some a => blocked a = false /\ count a = c
  end.

End Maintenance.

(** ** The 404 handler and the security error handler
    (src/middleware/errorHandler.ts) *)

Module Fallbacks.

Import Errors Http.

(** [notFound]: the error passed to [next] for a URL no route matched. *)
Definition notFound (originalUrl : string) : Error :=
  AppError ("Route " ++ originalUrl ++ " not found") 404.

(** [securityErrorHandler]: [inl] is the answer it sends, [inr] the error it
    passes on. *)
Definition securityErrorHandler (err : Error) : Response + Error :=
  if String.eqb (name err) "UnauthorizedError"
  then inl (json 401 false "Unauthorized access")
  else if String.eqb (name err) "ForbiddenError"
  then inl (json 403 false "Access forbidden")
  else inr err.

(** The character [c] does not occur in [n]. *)
Definition lacks (c : ascii) (n : string) : bool :=
  Sanitizer.all_chars (fun a => negb (Ascii.eqb a c)) n.

End Fallbacks.

(** ** Request guards (src/middleware/auth.ts) and the routes behind them
    (src/routes/auth.ts) *)

Module Guards.

Import Errors Users Http Jwt.

(** Modelled from the spec: [User.findById] of models/User.ts, the lookup of
    the credential store by [_id]. *)
Definition findById (id : string) (db : Users.Store) : option User :=
  List.find (fun u => String.eqb (_id u) id) db.

(** [.select('-password')] *)
Definition withoutPassword (u : User) : User :=
  {| _id := _id u; email := email u; password := None;
     firstName := firstName u; lastName := lastName u; avatar := avatar u;
     role := role u; isEmailVerified := isEmailVerified u;
     passwordResetToken := passwordResetToken u;
     passwordResetExpires := passwordResetExpires u;
     socialAccounts := socialAccounts u |}.

(** The [Authorization] header when present: it starts with "Bearer " and
    the rest reads as a credential, or it does not start so. *)
Inductive Authorization :=
| Bearer (t : Token)
| NotBearer (raw : string).

(** [authenticateJWT]: [inr u] when it attaches [u] to the request and calls
    [next()], [inl r] when it answers itself.  Ids are texts here; a lookup
    that throws on an id of another shape is not modelled. *)
Definition authenticateJWT (e : Env) (now : Z) (db : Users.Store)
    (authHeader : option Authorization) : Response + User :=
  match authHeader with
  | None | Some (NotBearer _) => inl (json 401 false "Access token is required")
  | Some (Bearer token) =>
      match verifyAccessToken e now token with
      | inl _ => inl (json 401 false "Invalid or expired token")
      | inr c =>
          match findById (userId (payload c)) db with
          | None => inl (json 401 false "User not found")
          | Some u => inr (withoutPassword u)
          end
      end
  end.

(** ['user' | 'admin'] as the text compared by [roles.includes]. *)
Definition roleName (r : Role) : string :=
  match r with
  | user => "user"
  | admin => "admin"
  end.

(** [authorizeRoles(...roles)]: [None] when it calls [next()]. *)
Definition authorizeRoles (roles : list string) (reqUser : option User)
    : option Response :=
  match reqUser with
  | None => Some (json 401 false "Authentication required")
  | Some u =>
      if List.existsb (String.eqb (roleName (role u))) roles then None
      else Some (json 403 false "Access denied. Insufficient permissions.")
  end.

(** [requireEmailVerification]: [None] when it calls [next()]. *)
Definition requireEmailVerification (reqUser : option User) : option Response :=
  match reqUser with
  | None => Some (json 401 false "Authentication required")
  | Some u =>
      if negb (isEmailVerified u)
      then Some (json 403 false "Email verification required")
      else None
  end.

(** [optionalAuth]: always calls [next()]; the result is the user it
    attached, if any. *)
Definition optionalAuth (e : Env) (now : Z) (db : Users.Store)
    (authHeader : option Authorization) : option User :=
  match authHeader with
  | None | Some (NotBearer _) => None
  | Some (Bearer token) =>
      match verifyAccessToken e now token with
      | inl _ => None
      | inr c => option_map withoutPassword (findById (userId (payload c)) db)
      end
  end.

(** [router.post('/logout', authenticateJWT, requireEmailVerification, logout)] *)
Definition logoutRoute (e : Env) (now : Z) (db : Users.Store)
    (authHeader : option Authorization) : Response :=
  match authenticateJWT e now db authHeader with
  | inl r => r
  | inr u =>
      match requireEmailVerification (Some u) with
      | Some r => r
      | None => json 200 true "Logged out successfully"
      end
  end.

(** A route mounted as [authenticateJWT, authorizeRoles(...roles), handler]:
    [None] when the handler is reached. *)
Definition roleGuarded (roles : list string) (e : Env) (now : Z)
    (db : Users.Store) (authHeader : option Authorization) : option Response :=
  match authenticateJWT e now db authHeader with
  | inl r => Some r
  | inr u => authorizeRoles roles (Some u)
  end.

End Guards.

(** ** Token refresh and password reset
    (src/controllers/authController.ts) *)

Module Sessions.

Import Errors Users Http Jwt.

(** What [refreshToken] leaves behind: the 200 answer with the new pair, or
    an error passed to the global handler. *)
Inductive Refreshed :=
| NewTokens (accessToken refreshToken : Token)
| RefreshThrown (err : Error).

(** The body of the [try] block of [refreshToken]. *)
Definition refreshAttempt (e : Env) (now : Z) (token : Token)
    (db : Users.Store) : Refreshed :=
  match verifyRefreshToken e now token with
  | inl err => RefreshThrown err
  | inr c =>
      match Guards.findById (userId (payload c)) db with
      | None => RefreshThrown (AppError "User not found" 401)
      | Some u =>
          match generateAccessToken e now u with
          | inl err => RefreshThrown err
          | inr access =>
              match generateRefreshToken e now u with
              | inl err => RefreshThrown err
              | inr refresh => NewTokens access refresh
              end
          end
      end
  end.

(** [refreshToken]; the body member is absent, or a credential text (the
    empty text is falsy).  Whatever is thrown inside the [try] block is
    replaced by one 401. *)
Definition refreshToken (e : Env) (now : Z) (body_refreshToken : option Token)
    (db : Users.Store) : Refreshed :=
  match body_refreshToken with
  | None | Some (Malformed "") =>
      RefreshThrown (AppError "Refresh token is required" 400)
  | Some token =>
      match refreshAttempt e now token db with
      | NewTokens a r => NewTokens a r
      | RefreshThrown _ => RefreshThrown (AppError "Invalid refresh token" 401)
      end
  end.

(** The answer the client gets. *)
Definition refreshStatus (r : Refreshed) : option Z :=
  match r with
  | NewTokens _ _ => Some 200
  | RefreshThrown err => status <$> errorHandler err
  end.

(** What [resetPassword] leaves behind. *)
Inductive Reset :=
| ResetDone (accessToken refreshToken : Token)
| ResetThrown (err : Error).

Section Reset.

(** Members of the user model, which is not among the sources: the digest
    of a token and the hash that the model stores for a password. *)
Variable sha256 : string -> string.
Variable hashPassword : string -> string.

(** [User.findOne({ passwordResetToken, passwordResetExpires: { $gt: now } })] *)
Definition findByResetToken (hashedToken : string) (now : Z) (db : Users.Store)
    : option User :=
  List.find (fun u =>
               match passwordResetToken u, passwordResetExpires u with
               | Some t, Some x => String.eqb t hashedToken && (now <? x)
               | _, _ => false
               end) db.

(** Modelled from the spec: on [save] the model stores the hash of a
    password that was assigned ([user.password = password]). *)
Definition withPassword (pw : string) (u : User) : User :=
  {| _id := _id u; email := email u; password := Some (hashPassword pw);
     firstName := firstName u; lastName := lastName u; avatar := avatar u;
     role := role u; isEmailVerified := isEmailVerified u;
     passwordResetToken := passwordResetToken u;
     passwordResetExpires := passwordResetExpires u;
     socialAccounts := socialAccounts u |}.

Definition resetPassword (e : Env) (now : Z) (token pw : string)
    (db : Users.Store) : Reset * Users.Store :=
  let hashedToken := sha256 token in
  match findByResetToken hashedToken now db with
  | None => (ResetThrown (AppError "Invalid or expired reset token" 400), db)
  | Some u =>
      let u := Controllers.clearPasswordResetToken (withPassword pw u) in
      let db := save u db in
      match generateAccessToken e now u with
      | inl err => (ResetThrown err, db)
      | inr access =>
          match generateRefreshToken e now u with
          | inl err => (ResetThrown err, db)
          | inr refresh => (ResetDone access refresh, db)
          end
      end
  end.

End Reset.

Definition resetStatus (r : Reset) : option Z :=
  match r with
  | ResetDone _ _ => Some 200
  | ResetThrown err => status <$> errorHandler err
  end.

End Sessions.

(** ** The own properties of a sanitized object
    (src/middleware/security.ts) *)

Module Members.

Import Sanitizer.

(** The own property [k] of an object, by its list of own properties.
    This is not [obj[k]], which goes on to the prototype when the object
    has no such own property. *)
Definition own_property (k : string) (o : list (string * Value))
    : option Value :=
  option_map snd (List.find (fun kv => String.eqb kv.1 k) o).

(** The value of the last entry of [fs], in the order of [Object.entries],
    whose key is cleaned to [k]. *)
Fixpoint last_cleaned (k : string) (fs : list (string * Json)) : option Json :=
  match fs with
  | [] => None
  | (key, value) :: rest =>
      match last_cleaned k rest with
      | Some w => Some w
      | None => if String.eqb (cleanKey key) k then Some value else None
      end
  end.

(** No key of [fs] is cleaned to [k]. *)
Definition none_cleaned (k : string) (fs : list (string * Json)) : bool :=
  List.forallb (fun kv => negb (String.eqb (cleanKey kv.1) k)) fs.

(** The prototype that the setter of [__proto__] leaves for the value
    assigned. *)
Definition prototype_for (v : Value) : Proto Value :=
  match v with
  | VNull => NullPrototype
  | VObject _ _ | VArray _ => Replaced v
  | _ => ObjectPrototype
  end.

End Members.

(** ** Upload check (src/middleware/security.ts, [validateFileUpload]) *)

Module Uploads.

Import Errors Http.

(** The members of an uploaded file that the check reads. *)
Record FileInfo := {
  size : option Z;               (* present when it is a number *)
  mimetype : option string;
  originalname : option string
}.

(** [req.files]: absent, an array (an entry that is no object is [None]),
    or the dictionary from field names to arrays that multer builds for
    several fields. *)
Inductive Files :=
| NoFiles
| FileArray (entries : list (option FileInfo))
| FileFields (fieldNames : list string).

(** The objects pushed on [files], in order; the dictionary is pushed as
    one object, of which only a member called [mimetype] is ever read as
    truthy text-like value (an array, never an allowed type). *)
Inductive Pushed :=
| AFile (f : FileInfo)
| NotAnObject
| Dictionary (fieldNames : list string).

Definition pushed (file : option FileInfo) (files : Files) : list Pushed :=
  (match files with
   | NoFiles => []
   | FileArray entries =>
       List.map (fun o => match o with
                          | Some f => AFile f
                          | None => NotAnObject
                          end) entries
   | FileFields names => [Dictionary names]
   end ++
   match file with
   | Some f => [AFile f]
   | None => []
   end)%list.

(** [process.env.MAX_FILE_SIZE?.replace(/[^0-9]/g, '') || '5'], parsed, in
    bytes. *)
Definition digits_of (s : string) : string :=
  string_of_list_ascii (List.filter Text.is_digit (list_ascii_of_string s)).

Definition maxSize (MAX_FILE_SIZE : option string) : Z :=
  Text.digits_value (or_else (option_map digits_of MAX_FILE_SIZE) "5")
  * 1024 * 1024.

Definition allowedMimeTypes : list string :=
  [ "image/jpeg"; "image/png"; "image/gif"; "image/webp";
    "application/pdf"; "text/plain"; "application/json" ].

Definition backslash : string := String (ascii_of_nat 92) EmptyString.

(** The body of the loop for one file: [Some r] when it answers. *)
Definition checkFile (MAX_FILE_SIZE : option string) (f : FileInfo)
    : option Response :=
  if match size f with
     | Some n => maxSize MAX_FILE_SIZE <? n
     | None => false
     end
  then Some (json 413 false
               ("File too large. Maximum size is "
                ++ or_else MAX_FILE_SIZE "5mb"))
  else if Passport.truthy (mimetype f)
          && negb (List.existsb (String.eqb (Passport.or_empty (mimetype f)))
                     allowedMimeTypes)
  then Some (json 400 false "File type not allowed")
  else if Passport.truthy (originalname f)
          && (Text.includes ".." (Passport.or_empty (originalname f))
              || Text.includes "/" (Passport.or_empty (originalname f))
              || Text.includes backslash (Passport.or_empty (originalname f)))
  then Some (json 400 false "Invalid filename")
  else None.

Fixpoint checkAll (MAX_FILE_SIZE : option string) (files : list Pushed)
    : option Response :=
  match files with
  | [] => None
  | AFile f :: rest =>
      match checkFile MAX_FILE_SIZE f with
      | Some r => Some r
      | None => checkAll MAX_FILE_SIZE rest
      end
  | NotAnObject :: rest => checkAll MAX_FILE_SIZE rest
  | Dictionary names :: rest =>
      if List.existsb (String.eqb "mimetype") names
      then Some (json 400 false "File type not allowed")
      else checkAll MAX_FILE_SIZE rest
  end.

(** [validateFileUpload]: [None] when it calls [next()]. *)
Definition validateFileUpload (MAX_FILE_SIZE : option string)
    (file : option FileInfo) (files : Files) : option Response :=
  checkAll MAX_FILE_SIZE (pushed file files).

(** What the check is meant to ensure of a file: a size within the limit,
    an allowed type when it names one, and a name without slash,
    backslash or "..". *)
Definition acceptable (MAX_FILE_SIZE : option string) (f : FileInfo) : Prop :=
  (forall n, size f = Some n -> n <= maxSize MAX_FILE_SIZE) /\
  (forall t, mimetype f = Some t -> t <> "" -> In t allowedMimeTypes) /\
  (forall name, originalname f = Some name ->
     Fallbacks.lacks "/" name = true /\
     Fallbacks.lacks (ascii_of_nat 92) name = true /\
     Text.includes ".." name = false).

End Uploads.

(** ** More sample values *)

Module Scenario.

Import Users.

(** Issued for alice at clock value 1700000000123 under [Sample.env]. *)
Definition access_token : Jwt.Token :=
  Jwt.Jws {| Jwt.payload := Jwt.payloadOf Sample.alice;
             Jwt.iat := 1700000000;
             Jwt.exp := Some (1700000000 + 604800) |}
          (Some "access-secret").

Definition refresh_token : Jwt.Token :=
  Jwt.Jws {| Jwt.payload := Jwt.payloadOf Sample.alice;
             Jwt.iat := 1700000000;
             Jwt.exp := Some (1700000000 + 2592000) |}
          (Some "refresh-secret").

(** alice after her Google account with the id "g-second" was linked. *)
Definition alice_linked : User :=
  {| _id := "u1"; email := "a@b.com"; password := Some "hash-of-Str0ng!Pass";
     firstName := "Alice"; lastName := "Doe";
     avatar := Some "https://img.example/a.png";
     role := user; isEmailVerified := false;
     passwordResetToken := None; passwordResetExpires := None;
     socialAccounts := {| google := Some "g-second"; github := None |} |}.

(** The record created for the profile [Sample.stranger] by a first Google
    login. *)
Definition carol : User :=
  {| _id := "u2"; email := "c@d.com"; password := None;
     firstName := "Carol"; lastName := ""; avatar := None;
     role := user; isEmailVerified := true;
     passwordResetToken := None; passwordResetExpires := None;
     socialAccounts := {| google := Some "g-third"; github := None |} |}.

Definition bcrypt (pw : string) : string := "bcrypt:" ++ pw.

(** A login request with alice's password, from the address of
    [Sample.attempt]. *)
Definition good_attempt : Controllers.Request :=
  {| Controllers.ip := Some "1.2.3.4"; Controllers.path := "/api/auth/login";
     Controllers.body_email := Some "a@b.com";
     Controllers.body_password := "Str0ng!Pass" |}.

(** Five failed logins from one address with an accepted one between
    them. *)
Definition mixed_attempts : list (Z * string * Controllers.Request) :=
  [ (1000, "f1", Sample.attempt "a@b.com");
    (2000, "f2", Sample.attempt "c@d.com");
    (2500, "f0", good_attempt);
    (3000, "f3", Sample.attempt "a@b.com");
    (4000, "f4", Sample.attempt "e@f.com");
    (5000, "f5", Sample.attempt "a@b.com") ].



(** An upload that the check lets pass. *)
Definition picture : Uploads.FileInfo :=
  {| Uploads.size := Some 20000; Uploads.mimetype := Some "image/png";
     Uploads.originalname := Some "holiday.png" |}.

(** An object with two members that are cleaned to the same key. *)
Definition colliding : list (string * Sanitizer.Json) :=
  [ ("a$b", Sanitizer.JString " first "); ("ab", Sanitizer.JString "second") ].

(** The members of a body around a member named [__proto__], and the value
    of that member. *)
Definition profile_fields : list (string * Sanitizer.Json) :=
  [ ("name", Sanitizer.JString "Mallory") ].

Definition more_fields : list (string * Sanitizer.Json) :=
  [ ("age", Sanitizer.JNumber 30) ].

Definition granted : Sanitizer.Json :=
  Sanitizer.JObject [ ("isAdmin", Sanitizer.JBool true) ].

End Scenario.

(** * Properties *)

(** ** The abuse tracker *)

Section AbuseTrackerFacts.

Import AbuseTracker.

Lemma track_insert e now id ty (s : Store) :
  trackSuspiciousActivity e now id ty s = <[id := bumped e now (s !! id)]> s.
Proof.
  unfold trackSuspiciousActivity, bumped.
  destruct (s !! id) as [a|]; simpl;
    destruct (_ && _); simpl; rewrite Z.sub_diag; reflexivity.
Qed.

Lemma track_other e now id id' ty (s : Store) :
  id' <> id -> trackSuspiciousActivity e now id' ty s !! id = s !! id.
Proof. intros Hne. rewrite track_insert. by apply lookup_insert_ne. Qed.

Lemma track_same e now id ty (s : Store) :
  trackSuspiciousActivity e now id ty s !! id = Some (bumped e now (s !! id)).
Proof. rewrite track_insert. by apply lookup_insert_eq. Qed.

Lemma bumped_fresh e now o :
  (forall a, o = Some a ->
     0 <= count a /\ (blocked a = true -> is_Some (blockUntil a))) ->
  1 <= count (bumped e now o) /\
  (threshold e <= count (bumped e now o) -> blocked (bumped e now o) = true) /\
  (blocked (bumped e now o) = true -> is_Some (blockUntil (bumped e now o))).
Proof.
  intros Hok. unfold bumped.
  destruct o as [a|]; simpl.
  - destruct (Hok a eq_refl) as [Hc Hb].
    destruct (Z.leb_spec (threshold e) (count a + 1));
      destruct (blocked a) eqn:Hbl; simpl; repeat split; eauto; lia.
  - destruct (Z.leb_spec (threshold e) (0 + 1)); simpl;
      repeat split; eauto; try lia; discriminate.
Qed.

Lemma bumped_more e now a m :
  m <= count a ->
  (blocked a = true -> is_Some (blockUntil a)) ->
  m + 1 <= count (bumped e now (Some a)) /\
  (threshold e <= count (bumped e now (Some a)) ->
     blocked (bumped e now (Some a)) = true) /\
  (blocked (bumped e now (Some a)) = true ->
     is_Some (blockUntil (bumped e now (Some a)))).
Proof.
  intros Hm Hb. unfold bumped; simpl.
  destruct (Z.leb_spec (threshold e) (count a + 1));
    destruct (blocked a) eqn:Hbl; simpl; repeat split; eauto; lia.
Qed.

Lemma bumped_keeps_block e now a bu :
  blocked a = true -> blockUntil a = Some bu ->
  blocked (bumped e now (Some a)) = true /\
  blockUntil (bumped e now (Some a)) = Some bu.
Proof.
  intros Hb Hu. unfold bumped; simpl. rewrite Hb, andb_false_r. by simpl.
Qed.

Lemma isBlocked_other now id id' (s : Store) :
  id' <> id -> (isBlocked now id' s).2 !! id = s !! id.
Proof.
  intros Hne. unfold isBlocked.
  destruct (s !! id') as [a|]; [|done].
  destruct (negb (blocked a)); [done|].
  destruct (blockUntil a) as [bu|]; [|done].
  destruct (bu <? now); [|done]. simpl. by apply lookup_insert_ne.
Qed.

Lemma isBlocked_before now id bu (s : Store) :
  blocked_until id bu s -> now <= bu -> isBlocked now id s = (true, s).
Proof.
  intros (a & Ha & Hb & Hu) Hnow. unfold isBlocked.
  rewrite Ha, Hb, Hu. simpl.
  destruct (Z.ltb_spec bu now); [lia | done].
Qed.

Lemma isBlocked_after now id bu (s : Store) :
  blocked_until id bu s -> bu < now ->
  exists a, s !! id = Some a /\
    isBlocked now id s =
      (false, <[id := {| count := 0; lastAttempt := lastAttempt a;
                         blocked := false; blockUntil := None |}]> s).
Proof.
  intros (a & Ha & Hb & Hu) Hnow. exists a. split; [done|].
  unfold isBlocked. rewrite Ha, Hb, Hu. simpl.
  destruct (Z.ltb_spec bu now); [done | lia].
Qed.

(** Asking about an identifier that is not blocked changes nothing. *)
Lemma isBlocked_unblocked now id (s : Store) :
  (forall a, s !! id = Some a -> blocked a = false) ->
  isBlocked now id s = (false, s).
Proof.
  intros H. unfold isBlocked. destruct (s !! id) as [a|]; [|done].
  by rewrite (H a eq_refl).
Qed.

Lemma track_keeps_tracked e now id id' ty m (s : Store) :
  tracked e id m s ->
  tracked e id (if decide (id' = id) then m + 1 else m)
    (trackSuspiciousActivity e now id' ty s).
Proof.
  intros (a & Ha & Hm & Hthr & Hbu).
  destruct (decide (id' = id)) as [->|Hne].
  - exists (bumped e now (Some a)). rewrite track_same, Ha.
    split; [done|]. by apply bumped_more.
  - exists a. rewrite track_other by done. done.
Qed.

Lemma track_keeps_ok e now id id' ty (s : Store) :
  record_ok s id -> record_ok (trackSuspiciousActivity e now id' ty s) id.
Proof.
  intros Hok a. destruct (decide (id' = id)) as [->|Hne].
  - rewrite track_same. intros [= <-].
    destruct (bumped_fresh e now (s !! id)) as (H1 & _ & H3); [by apply Hok|].
    split; [lia | done].
  - rewrite track_other by done. apply Hok.
Qed.

Lemma isBlocked_store now id (s : Store) :
  (isBlocked now id s).2 = s \/
  exists a, (isBlocked now id s).2 =
    <[id := {| count := 0; lastAttempt := lastAttempt a;
               blocked := false; blockUntil := None |}]> s.
Proof.
  unfold isBlocked. destruct (s !! id) as [a|]; [|by left].
  destruct (negb (blocked a)); [by left|].
  destruct (blockUntil a) as [bu|]; [|by left].
  destruct (bu <? now); [right; by exists a | by left].
Qed.

Lemma isBlocked_keeps_ok now id id' (s : Store) :
  record_ok s id -> record_ok (isBlocked now id' s).2 id.
Proof.
  intros Hok a. destruct (decide (id' = id)) as [->|Hne].
  - destruct (isBlocked_store now id s) as [-> | [a0 ->]]; [apply Hok|].
    rewrite lookup_insert_eq. intros [= <-]. simpl. split; [lia | discriminate].
  - rewrite isBlocked_other by done. apply Hok.
Qed.

Lemma isBlocked_quiet now id id' (s : Store) :
  negb (bool_decide (id' = id)) || negb (elapsed now (s !! id)) = true ->
  (isBlocked now id' s).2 !! id = s !! id.
Proof.
  intros H. destruct (decide (id' = id)) as [->|Hne];
    [|by apply isBlocked_other].
  rewrite bool_decide_eq_true_2 in H by done. simpl in H.
  unfold isBlocked, elapsed in *. destruct (s !! id) as [a|] eqn:Ha; [|done].
  destruct (blocked a); [|done]. simpl in *.
  destruct (blockUntil a) as [bu|]; [|done].
  by destruct (bu <? now).
Qed.

Lemma run_tracked e id cs : forall m (s : Store),
  tracked e id m s -> quiet e id cs s = true ->
  tracked e id (m + Z.of_nat (failures id cs)) (run e cs s).2.
Proof.
  induction cs as [|[i t|i t] cs IH]; intros m s Htr Hq; simpl in *.
  - by rewrite Z.add_0_r.
  - pose proof (track_keeps_tracked e t id i "failed_login" m s Htr) as Hstep.
    destruct (decide (i = id)) as [->|Hne].
    + specialize (IH _ _ Hstep Hq).
      replace (m + Z.of_nat (S (failures id cs)))
        with (m + 1 + Z.of_nat (failures id cs)) by lia. done.
    + by apply IH.
  - apply andb_true_iff in Hq as [Hi Hq].
    pose proof (isBlocked_quiet t id i s Hi) as Hsame.
    destruct (isBlocked t i s) as [b s1] eqn:Hblk. simpl in *.
    destruct (run e cs s1) as [log s2] eqn:Hrun. simpl.
    assert (Htr1 : tracked e id m s1).
    { destruct Htr as (a & Ha & Hrest). exists a. by rewrite Hsame. }
    specialize (IH _ _ Htr1 Hq). by rewrite Hrun in IH.
Qed.

Lemma run_reaches_threshold e id cs : forall (s : Store),
  record_ok s id -> quiet e id cs s = true ->
  (1 <= failures id cs)%nat ->
  tracked e id (Z.of_nat (failures id cs)) (run e cs s).2.
Proof.
  induction cs as [|[i t|i t] cs IH]; intros s Hok Hq Hn; simpl in *.
  - lia.
  - destruct (decide (i = id)) as [->|Hne].
    + assert (Htr : tracked e id 1 (trackSuspiciousActivity e t id "failed_login" s)).
      { exists (bumped e t (s !! id)). rewrite track_same. split; [done|].
        apply bumped_fresh. intros a Ha. by apply Hok. }
      pose proof (run_tracked e id cs _ _ Htr Hq) as H.
      replace (Z.of_nat (S (failures id cs)))
        with (1 + Z.of_nat (failures id cs)) by lia. done.
    + apply IH; [by apply track_keeps_ok | done | done].
  - apply andb_true_iff in Hq as [Hi Hq].
    pose proof (isBlocked_keeps_ok t id i s Hok) as Hok1.
    destruct (isBlocked t i s) as [b s1] eqn:Hblk. simpl in *.
    destruct (run e cs s1) as [log s2] eqn:Hrun. simpl.
    specialize (IH _ Hok1 Hq Hn). by rewrite Hrun in IH.
Qed.

Lemma run_stays_blocked e id bu cs : forall (s : Store),
  blocked_until id bu s -> checked_by id bu cs = true ->
  blocked_until id bu (run e cs s).2 /\
  (forall t b, (id, t, b) ∈ (run e cs s).1 -> b = true).
Proof.
  induction cs as [|[i t|i t] cs IH]; intros s Hbl Hch; simpl in *.
  - split; [done|]. intros t b Hin. by apply elem_of_nil in Hin.
  - apply IH; [|done].
    destruct Hbl as (a & Ha & Hb & Hu).
    destruct (decide (i = id)) as [->|Hne].
    + exists (bumped e t (Some a)). rewrite track_same, Ha.
      split; [done|]. by apply bumped_keeps_block.
    + exists a. by rewrite track_other.
  - apply andb_true_iff in Hch as [Hi Hch].
    destruct (isBlocked t i s) as [b s1] eqn:Hblk.
    destruct (run e cs s1) as [log s2] eqn:Hrun. simpl.
    destruct (decide (i = id)) as [->|Hne].
    + rewrite bool_decide_eq_true_2 in Hi by done. simpl in Hi.
      apply Z.leb_le in Hi.
      rewrite (isBlocked_before t id bu s Hbl Hi) in Hblk.
      injection Hblk as <- <-.
      destruct (IH _ Hbl Hch) as [H1 H2]. rewrite Hrun in H1, H2.
      split; [done|]. intros t' b' Hin.
      apply elem_of_cons in Hin as [[= -> ->]|Hin]; [done | by eapply H2].
    + assert (Hbl1 : blocked_until id bu s1).
      { destruct Hbl as (a & Ha & Hrest). exists a. split; [|done].
        replace s1 with (isBlocked t i s).2 by (by rewrite Hblk).
        by rewrite isBlocked_other. }
      destruct (IH _ Hbl1 Hch) as [H1 H2]. rewrite Hrun in H1, H2.
      split; [done|]. intros t' b' Hin.
      apply elem_of_cons in Hin as [[= ? ? ?]|Hin]; [congruence | by eapply H2].
Qed.

(** The well-formedness assumed of a record holds of the empty map and
    after every history. *)
Lemma record_ok_empty id : record_ok ∅ id.
Proof. intros a Ha. by rewrite lookup_empty in Ha. Qed.

Lemma run_keeps_ok e id cs : forall (s : Store),
  record_ok s id -> record_ok (run e cs s).2 id.
Proof.
  induction cs as [|[i t|i t] cs IH]; intros s Hok; simpl; [done | |].
  - apply IH. by apply track_keeps_ok.
  - pose proof (isBlocked_keeps_ok t id i s Hok) as H1.
    destruct (isBlocked t i s) as [b s1]. specialize (IH s1 H1).
    by destruct (run e cs s1).
Qed.

Lemma blocked_after_failures e id cs (s : Store) :
  record_ok s id ->
  quiet e id cs s = true ->
  (1 <= failures id cs)%nat ->
  threshold e <= Z.of_nat (failures id cs) ->
  exists bu, blocked_until id bu (run e cs s).2.
Proof.
  intros Hok Hun Hone Hthr.
  destruct (run_reaches_threshold e id cs s Hok Hun Hone)
    as (a & Ha & Hm & Hblk & Hbu).
  destruct (Hbu (Hblk ltac:(lia))) as [bu Hu].
  exists bu, a. repeat split; [done | apply Hblk; lia | done].
Qed.

(** C1.  From a map in which the record of [id] is well formed, let a
    history [cs1] record at least one and at least [threshold] failures for
    [id] without the counter being reset in between (no [isBlocked id] is
    asked past an earlier deadline).  Then [id] is blocked
    with some deadline [bu]; whatever is called afterwards, as long as
    [isBlocked id] is only asked at clock values not past [bu], every such
    call answers [true]; and the first call asked strictly after [bu]
    answers [false] and rewrites the record to [blocked = false],
    [count = 0], without deadline. *)
Theorem lockout_until_deadline e id cs1 (s : Store) :
  record_ok s id ->
  quiet e id cs1 s = true ->
  (1 <= failures id cs1)%nat ->
  threshold e <= Z.of_nat (failures id cs1) ->
  exists bu,
    blocked_until id bu (run e cs1 s).2 /\
    forall cs2, checked_by id bu cs2 = true ->
      let r := run e cs2 (run e cs1 s).2 in
      (forall t b, (id, t, b) ∈ r.1 -> b = true) /\
      (forall now, bu < now ->
         exists a, isBlocked now id r.2 = (false, <[id := a]> r.2) /\
                   blocked a = false /\ count a = 0 /\ blockUntil a = None).
Proof.
  intros Hok Hun Hone Hthr.
  destruct (blocked_after_failures e id cs1 s Hok Hun Hone Hthr) as [bu Hb].
  exists bu. split; [done|].
  intros cs2 Hch r.
  destruct (run_stays_blocked e id bu cs2 _ Hb Hch) as [Hb2 Hlog].
  split; [done|]. intros now Hnow.
  destruct (isBlocked_after now id bu _ Hb2 Hnow) as (a2 & _ & Heq).
  eexists. split; [exact Heq|]. done.
Qed.

End AbuseTrackerFacts.

(** The scenario of the lockout theorem: five failures recorded for the
    address 1.2.3.4 in an empty map, each after a block check, with the
    default threshold. *)
Lemma lockout_until_deadline_witness :
  exists bu,
    AbuseTracker.blocked_until "1.2.3.4" bu
      (AbuseTracker.run Sample.env Sample.five_failures ∅).2 /\
    forall cs2, AbuseTracker.checked_by "1.2.3.4" bu cs2 = true ->
      let r := AbuseTracker.run Sample.env cs2
                 (AbuseTracker.run Sample.env Sample.five_failures ∅).2 in
      (forall t b, ("1.2.3.4", t, b) ∈ r.1 -> b = true) /\
      (forall now, bu < now ->
         exists a, AbuseTracker.isBlocked now "1.2.3.4" r.2
                     = (false, <["1.2.3.4" := a]> r.2) /\
                   AbuseTracker.blocked a = false /\
                   AbuseTracker.count a = 0 /\
                   AbuseTracker.blockUntil a = None).
Proof.
  apply (lockout_until_deadline Sample.env "1.2.3.4" Sample.five_failures ∅).
  - intros a Ha. by rewrite lookup_empty in Ha.
  - reflexivity.
  - simpl. lia.
  - unfold AbuseTracker.threshold. simpl. lia.
Defined.

(** In that scenario the deadline is the clock value of the fifth failure
    plus the default lockout of fifteen minutes; a sixth failure leaves it
    where it is. *)
Lemma lockout_deadline_example :
  AbuseTracker.blocked_until "1.2.3.4" (5000 + 900000)
    (AbuseTracker.run Sample.env Sample.five_failures ∅).2 /\
  AbuseTracker.blocked_until "1.2.3.4" (5000 + 900000)
    (AbuseTracker.run Sample.env
       (Sample.five_failures ++ [AbuseTracker.Track "1.2.3.4" 6000]) ∅).2 /\
  (AbuseTracker.isBlocked 905000 "1.2.3.4"
     (AbuseTracker.run Sample.env Sample.five_failures ∅).2).1 = true /\
  (AbuseTracker.isBlocked 905001 "1.2.3.4"
     (AbuseTracker.run Sample.env Sample.five_failures ∅).2).1 = false.
Proof.
  repeat split; try (eexists; repeat split; vm_compute; reflexivity);
    vm_compute; reflexivity.
Qed.

(** ** Signed credentials *)

Section JwtFacts.

Import Errors Users Jwt.

(** C2, as stated, fails: with the secret configured and no lifetime in the
    environment the credential expires seven days after it was issued, not
    fifteen minutes; and with the secret configured the function still
    fails when the configured lifetime is no time span. *)
Lemma default_lifetime_counterexample :
  (exists c k,
     generateAccessToken Sample.env 0 Sample.alice = inr (Jws c k) /\
     exp c = Some (iat c + 7 * 24 * 60 * 60) /\
     exp c <> Some (iat c + 15 * 60)) /\
  env_missing (JWT_SECRET Sample.env_bad_ttl) = false /\
  (exists err, generateAccessToken Sample.env_bad_ttl 0 Sample.alice = inl err).
Proof.
  split; [|split; [reflexivity | eexists; reflexivity]].
  eexists _, _. split; [reflexivity|]. split; [reflexivity | discriminate].
Qed.

(** C2, amended.  Without an access secret [generateAccessToken] fails with
    "JWT_SECRET is not defined".  With the secret, the credential expires
    the configured lifetime after it is issued, the lifetime being seven
    days when none is configured; it is issued whenever the lifetime in
    force is a time span. *)
Theorem access_token_lifetime e now u :
  (env_missing (JWT_SECRET e) = true ->
     generateAccessToken e now u = inl (mkError "JWT_SECRET is not defined")) /\
  (env_missing (JWT_SECRET e) = false ->
     forall v, ms (or_else (JWT_EXPIRES_IN e) "7d") = Some v ->
       exists c k, generateAccessToken e now u = inr (Jws c k) /\
                   iat c = now / 1000 /\ exp c = Some (iat c + v / 1000)) /\
  (env_missing (JWT_SECRET e) = false ->
     env_missing (JWT_EXPIRES_IN e) = true ->
       exists c k, generateAccessToken e now u = inr (Jws c k) /\
                   exp c = Some (iat c + 7 * 24 * 60 * 60)).
Proof.
  unfold generateAccessToken. repeat split.
  - by intros ->.
  - intros -> v Hv. unfold sign, timespan. rewrite Hv. simpl.
    eexists _, _. split; [reflexivity|]. by simpl.
  - intros -> Httl.
    assert (Hd : or_else (JWT_EXPIRES_IN e) "7d" = "7d").
    { unfold env_missing in Httl. unfold or_else.
      destruct (JWT_EXPIRES_IN e) as [[|]|]; done. }
    rewrite Hd. eexists _, _. split; [reflexivity|]. reflexivity.
Qed.

Lemma access_token_lifetime_witness :
  exists c k, generateAccessToken Sample.env 1700000000123 Sample.alice
                = inr (Jws c k) /\
              exp c = Some (iat c + 7 * 24 * 60 * 60).
Proof.
  apply (access_token_lifetime Sample.env 1700000000123 Sample.alice);
    reflexivity.
Defined.

(** C3.  A credential that [generateAccessToken] produced for a user is
    accepted by [verifyAccessToken], under the same environment, at every
    clock value before its expiry, and the claims returned carry the
    user's id, email and role. *)
Theorem access_token_round_trip e now now' u tok :
  generateAccessToken e now u = inr tok ->
  (forall x, expiry tok = Some x -> now' < 1000 * x) ->
  exists c, verifyAccessToken e now' tok = inr c /\
            userId (payload c) = _id u /\
            payload_email (payload c) = email u /\
            payload_role (payload c) = role u.
Proof.
  unfold generateAccessToken, verifyAccessToken.
  destruct (env_missing (JWT_SECRET e)); [discriminate|].
  unfold sign. destruct (timespan _ _) as [x|]; [|discriminate].
  intros [= <-] Hlive. simpl in *.
  rewrite bool_decide_eq_true_2 by done.
  specialize (Hlive x eq_refl).
  destruct (Z.leb_spec x (now' / 1000)) as [Hle|Hlt].
  - exfalso. pose proof (Z.mul_div_le now' 1000 ltac:(lia)). lia.
  - eexists. split; [reflexivity|]. done.
Qed.

Lemma access_token_round_trip_witness :
  exists tok c,
    generateAccessToken Sample.env 1700000000123 Sample.alice = inr tok /\
    verifyAccessToken Sample.env 1700000600000 tok = inr c /\
    userId (payload c) = "u1" /\ payload_email (payload c) = "a@b.com" /\
    payload_role (payload c) = user.
Proof.
  eexists. 
  destruct (access_token_round_trip Sample.env 1700000000123 1700000600000
              Sample.alice _ eq_refl) as (c & Hc & H1 & H2 & H3).
  - intros x [= <-]. vm_compute. reflexivity.
  - exists c. split; [reflexivity|]. split; [exact Hc|]. by repeat split.
Defined.

(** C4, as stated, fails: at second 2000 a credential whose expiry has
    passed and a credential whose signature does not match are refused
    with the same error, although the package underneath tells the two
    cases apart. *)
Lemma verify_errors_counterexample :
  expired 2000000 Sample.stale_token /\
  forged "access-secret" Sample.forged_token /\
  ~ expired 2000000 Sample.forged_token /\
  (exists e1 e2,
     verify Sample.stale_token "access-secret" 2000000 = inl e1 /\
     verify Sample.forged_token "access-secret" 2000000 = inl e2 /\
     name e1 = "TokenExpiredError" /\ name e2 = "JsonWebTokenError") /\
  verifyAccessToken Sample.env 2000000 Sample.stale_token
    = verifyAccessToken Sample.env 2000000 Sample.forged_token /\
  verifyAccessToken Sample.env 2000000 Sample.stale_token
    = inl (mkError "Invalid access token").
Proof.
  split; [exists 1000; split; [reflexivity | lia]|].
  split; [eexists _, _; split; [reflexivity | discriminate]|].
  split; [intros (x & [= <-] & Hx); lia|].
  split; [eexists _, _; repeat split; reflexivity|].
  split; reflexivity.
Qed.

(** C4, amended.  With the secret configured, [verifyAccessToken] refuses
    a credential whose expiry has passed and a credential whose signature
    does not match with one and the same error, "Invalid access token",
    and has no other error; likewise [verifyRefreshToken] with "Invalid
    refresh token".  A caller cannot tell the two cases apart. *)
Theorem verify_errors_uniform e now t :
  (env_missing (JWT_SECRET e) = false ->
     (expired now t \/ forged (or_else (JWT_SECRET e) "") t ->
        verifyAccessToken e now t = inl (mkError "Invalid access token")) /\
     (forall err, verifyAccessToken e now t = inl err ->
        err = mkError "Invalid access token")) /\
  (env_missing (JWT_REFRESH_SECRET e) = false ->
     (expired now t \/ forged (or_else (JWT_REFRESH_SECRET e) "") t ->
        verifyRefreshToken e now t = inl (mkError "Invalid refresh token")) /\
     (forall err, verifyRefreshToken e now t = inl err ->
        err = mkError "Invalid refresh token")).
Proof.
  assert (Hlib : forall secret,
            expired now t \/ forged secret t ->
            exists err, verify t secret now = inl err).
  { intros secret [(x & Hx & Hle) | (c & k & -> & Hk)]; unfold verify.
    - destruct t as [raw|c k]; [by eexists|]. simpl in Hx.
      destruct (bool_decide _); [|by eexists]. rewrite Hx.
      destruct (Z.leb_spec x (now / 1000)) as [_|Hlt]; [by eexists|].
      exfalso.
      assert (x <= now / 1000) by (apply Z.div_le_lower_bound; lia).
      lia.
    - rewrite bool_decide_eq_false_2 by done. by eexists. }
  unfold verifyAccessToken, verifyRefreshToken.
  split; intros ->; (split; [intros Hbad | intros err]).
  - destruct (Hlib _ Hbad) as [err ->]. done.
  - destruct (verify _ _ _); [by intros [= <-] | discriminate].
  - destruct (Hlib _ Hbad) as [err ->]. done.
  - destruct (verify _ _ _); [by intros [= <-] | discriminate].
Qed.

Lemma verify_errors_uniform_witness :
  verifyAccessToken Sample.env 2000000 Sample.stale_token
    = inl (mkError "Invalid access token") /\
  verifyRefreshToken Sample.env 2000000 Sample.forged_token
    = inl (mkError "Invalid refresh token").
Proof.
  split.
  - apply (verify_errors_uniform Sample.env 2000000 Sample.stale_token);
      [reflexivity|].
    left. exists 1000. split; [reflexivity | lia].
  - apply (verify_errors_uniform Sample.env 2000000 Sample.forged_token);
      [reflexivity|].
    right. eexists _, _. split; [reflexivity | discriminate].
Defined.

End JwtFacts.

(** ** OAuth account linking *)

Section PassportFacts.

Import Errors Users Passport.

(** A record written back over the one it was loaded from is what a lookup
    by its email address finds afterwards. *)
Lemma findOne_save mail u u' (db : Users.Store) :
  findOne mail db = Some u -> email u' = mail -> _id u' = _id u ->
  findOne mail (save u' db) = Some u'.
Proof.
  unfold findOne, save. intros Hfind Hmail Hid.
  induction db as [|v db IH]; simpl in *; [discriminate|].
  destruct (String.eqb_spec (email v) mail) as [Hv|Hv].
  - injection Hfind as ->. rewrite Hid, String.eqb_refl. simpl.
    by rewrite Hmail, String.eqb_refl.
  - destruct (String.eqb (_id v) (_id u')); simpl.
    + by rewrite Hmail, String.eqb_refl.
    + destruct (String.eqb_spec (email v) mail); [done | by apply IH].
Qed.

Lemma findOne_email mail u (db : Users.Store) :
  findOne mail db = Some u -> email u = mail.
Proof.
  unfold findOne. intros H. apply find_some in H as [_ H].
  by apply String.eqb_eq.
Qed.

(** C5, as stated, fails: alice has the Google id "g-first" stored; a Google
    login with her email address and the id "g-second" leaves "g-second"
    stored on her record. *)
Lemma provider_id_counterexample :
  findOne "a@b.com" Sample.db = Some Sample.alice /\
  providerId Google Sample.alice = Some "g-first" /\
  providerId Google
    <$> findOne "a@b.com" (verifyCallback Google "u2" Sample.profile Sample.db).2
    = Some (Some "g-second").
Proof. repeat split. Qed.

(** C5, amended.  When the profile's email address resolves to an existing
    user, the linking step stores the id of the new profile as the id of
    that provider on the persisted record, whatever was stored before
    (last writer wins), and leaves the id of the other provider as it
    was. *)
Theorem linking_overwrites_provider_id pr newId p (db : Users.Store) mail u :
  hd_error (emails p) = Some mail -> mail <> "" ->
  findOne mail db = Some u ->
  exists u',
    verifyCallback pr newId p db = (DoneUser u', save u' db) /\
    findOne mail (save u' db) = Some u' /\
    _id u' = _id u /\
    providerId pr u' = Some (id p) /\
    (forall pr', pr' <> pr -> providerId pr' u' = providerId pr' u).
Proof.
  intros Hmail Hne Hfind.
  pose proof (findOne_email _ _ _ Hfind) as Hu.
  assert (Ht : truthy (Some mail) = true) by (by destruct mail).
  destruct pr; simpl; unfold googleVerify, githubVerify;
    rewrite Hmail, Ht; simpl; rewrite Hfind;
    (eexists; split; [reflexivity|]);
    (split; [by apply (findOne_save mail u)|]);
    (split; [done|]); (split; [done|]);
    intros []; done.
Qed.

Lemma linking_overwrites_provider_id_witness :
  exists u',
    verifyCallback Google "u2" Sample.profile Sample.db
      = (DoneUser u', save u' Sample.db) /\
    findOne "a@b.com" (save u' Sample.db) = Some u' /\
    _id u' = "u1" /\
    providerId Google u' = Some "g-second" /\
    (forall pr', pr' <> Google ->
       providerId pr' u' = providerId pr' Sample.alice).
Proof.
  apply (linking_overwrites_provider_id Google "u2" Sample.profile Sample.db
           "a@b.com" Sample.alice); [reflexivity | discriminate | reflexivity].
Defined.

(** C6 on the code.  alice registered with a password and has not verified
    her email address.  After a Google login, and after a GitHub login,
    with her address the persisted record still has
    [isEmailVerified = false]; a login with an unknown address creates a
    record with [isEmailVerified = true]. *)
Theorem linking_leaves_email_unverified :
  isEmailVerified Sample.alice = false /\
  (forall pr,
     isEmailVerified
       <$> findOne "a@b.com" (verifyCallback pr "u2" Sample.profile Sample.db).2
     = Some false) /\
  (forall pr,
     isEmailVerified
       <$> findOne "c@d.com" (verifyCallback pr "u2" Sample.stranger Sample.db).2
     = Some true).
Proof. repeat split; intros []; reflexivity. Qed.

(** The same on every input: linking to an existing user never changes
    [isEmailVerified]. *)
Lemma linking_keeps_verification_flag pr newId p (db : Users.Store) mail u :
  hd_error (emails p) = Some mail -> mail <> "" ->
  findOne mail db = Some u ->
  isEmailVerified <$> findOne mail (verifyCallback pr newId p db).2
    = Some (isEmailVerified u).
Proof.
  intros Hmail Hne Hfind.
  assert (Ht : truthy (Some mail) = true) by (by destruct mail).
  pose proof (findOne_email _ _ _ Hfind) as Hu.
  destruct pr; simpl; unfold googleVerify, githubVerify;
    rewrite Hmail, Ht; simpl; rewrite Hfind; simpl;
    erewrite (findOne_save mail u); done.
Qed.

End PassportFacts.

(** ** Route handlers *)

Section ControllerFacts.

Import Errors Users Http Controllers.

Variable comparePassword : User -> string -> option bool.

(** A login whose credential check fails throws the 401 error and records
    one failure for the email key and one for the address. *)
Lemma login_failed e now fp req (db : Users.Store) (s : AbuseTracker.Store) :
  credentialsFail comparePassword req db = true ->
  login comparePassword e now fp req db s
  = (Thrown (AppError "Invalid email or password" 401),
     (AbuseTracker.run e (failureCalls [(now, fp, req)]) s).2).
Proof.
  unfold credentialsFail, login. simpl.
  destruct (body_email req) as [mail|]; [|discriminate]. simpl.
  destruct (findOne _ db) as [u|]; [|done].
  destruct (comparePassword u _) as [[|]|]; done.
Qed.



Lemma failureCalls_count addr attempts :
  Forall (fun a => or_else (ip a.2) "unknown" = addr) attempts ->
  (length attempts <= AbuseTracker.failures addr (failureCalls attempts))%nat.
Proof.
  induction attempts as [|[[now fp] req] rest IH]; intros Hall; [done|].
  apply Forall_cons in Hall as [Hip Hall]. simpl in *.
  specialize (IH Hall). rewrite Hip.
  destruct (decide (_ = addr)); destruct (decide (addr = addr)); try done; lia.
Qed.

Lemma bumped_count e now o :
  AbuseTracker.count (AbuseTracker.bumped e now o)
  = from_option AbuseTracker.count 0 o + 1.
Proof.
  unfold AbuseTracker.bumped. destruct o as [a|]; simpl; by destruct (_ && _).
Qed.

(** C9.  A login request whose email address matches no user and a login
    request whose address matches a user but whose password is wrong get
    the same response: status 401 with the message "Invalid email or
    password". *)
Theorem login_failures_indistinguishable
    e1 e2 now1 now2 fp1 fp2 req1 req2 (db1 db2 : Users.Store)
    (s1 s2 : AbuseTracker.Store) mail1 mail2 u :
  body_email req1 = Some mail1 ->
  findOne (Text.trim (Text.toLowerCase mail1)) db1 = None ->
  body_email req2 = Some mail2 ->
  findOne (Text.trim (Text.toLowerCase mail2)) db2 = Some u ->
  comparePassword u (body_password req2) = Some false ->
  respond (login comparePassword e1 now1 fp1 req1 db1 s1).1
    = respond (login comparePassword e2 now2 fp2 req2 db2 s2).1 /\
  respond (login comparePassword e1 now1 fp1 req1 db1 s1).1
    = Some (json 401 false "Invalid email or password").
Proof.
  intros Hm1 Hnone Hm2 Hsome Hwrong.
  rewrite (login_failed e1 now1 fp1 req1 db1 s1), (login_failed e2 now2 fp2 req2 db2 s2).
  - split; reflexivity.
  - unfold credentialsFail. by rewrite Hm2, Hsome, Hwrong.
  - unfold credentialsFail. by rewrite Hm1, Hnone.
Qed.

(** Every login whose credential check fails adds one to the counter of
    the key "email:<normalized email>" and one to the counter of the
    caller's address. *)
Lemma login_failure_counts
    e now fp req (db : Users.Store) (s0 : AbuseTracker.Store) :
  credentialsFail comparePassword req db = true ->
  let key := "email:" ++
             Text.trim (Text.toLowerCase (Passport.or_empty (body_email req))) in
  let address := or_else (ip req) "unknown" in
  let s1 := (login comparePassword e now fp req db s0).2 in
  key <> address ->
  AbuseTracker.count_of s1 key = AbuseTracker.count_of s0 key + 1 /\
  AbuseTracker.count_of s1 address = AbuseTracker.count_of s0 address + 1.
Proof.
  intros Hfail key address s1 Hne. subst s1.
  rewrite (login_failed e now fp req db s0 Hfail). simpl.
  fold key address. unfold AbuseTracker.count_of.
  rewrite !track_insert.
  rewrite lookup_insert_ne, lookup_insert_eq by done.
  rewrite lookup_insert_eq, lookup_insert_ne by done.
  simpl. by rewrite !bumped_count.
Qed.

End ControllerFacts.

Lemma login_failures_indistinguishable_witness :
  Http.respond (Controllers.login Sample.comparePassword Sample.env 1000 "f1"
             (Sample.attempt "c@d.com") Sample.db ∅).1
  = Http.respond (Controllers.login Sample.comparePassword Sample.env 2000 "f2"
               (Sample.attempt "A@B.com ") Sample.db ∅).1 /\
  Http.respond (Controllers.login Sample.comparePassword Sample.env 1000 "f1"
             (Sample.attempt "c@d.com") Sample.db ∅).1
  = Some (Http.json 401 false "Invalid email or password").
Proof.
  apply (login_failures_indistinguishable Sample.comparePassword
           Sample.env Sample.env 1000 2000 "f1" "f2"
           (Sample.attempt "c@d.com") (Sample.attempt "A@B.com ")
           Sample.db Sample.db ∅ ∅ "c@d.com" "A@B.com " Sample.alice);
    reflexivity.
Defined.

(** C10 on the code.  The five failed logins of [Sample.attempts], all
    from the address 1.2.3.4 and for different accounts, block the address
    until 905000.  Long after that deadline the five failed logins of
    [Sample.later_attempts] follow from the same address: a threshold of
    failures again, and each one is counted.  [trackSuspiciousActivity]
    still finds [blocked = true] on the record, which only [isBlocked]
    resets, and so sets no new deadline: the record keeps the deadline
    905000 that has passed.  The address is not blocked afterwards:
    [isBlocked] answers [false], [checkBlocked] lets the next request
    pass, and the ten failures are forgotten.  The same five later logins
    made against an empty map do block the address, until 2904000. *)
Theorem stale_block_is_not_renewed :
  let logins := Controllers.logins Sample.comparePassword Sample.env in
  let s1 := (logins Sample.attempts Sample.db ∅).2 in
  let s2 := (logins Sample.later_attempts Sample.db s1).2 in
  Forall (fun a =>
            or_else (Controllers.ip a.2) "unknown" = "1.2.3.4" /\
            Controllers.credentialsFail Sample.comparePassword a.2 Sample.db
            = true)
         (Sample.attempts ++ Sample.later_attempts) /\
  Z.of_nat (length Sample.later_attempts) = AbuseTracker.threshold Sample.env /\
  s1 !! "1.2.3.4"
  = Some {| AbuseTracker.count := 5; AbuseTracker.lastAttempt := 5000;
            AbuseTracker.blocked := true;
            AbuseTracker.blockUntil := Some 905000 |} /\
  s2 !! "1.2.3.4"
  = Some {| AbuseTracker.count := 10; AbuseTracker.lastAttempt := 2004000;
            AbuseTracker.blocked := true;
            AbuseTracker.blockUntil := Some 905000 |} /\
  (AbuseTracker.isBlocked 2004001 "1.2.3.4" s2).1 = false /\
  (Controllers.checkBlocked 2004001 (Sample.attempt "k@l.com") s2).1 = None /\
  (Controllers.checkBlocked 2004001 (Sample.attempt "k@l.com") s2).2 !! "1.2.3.4"
  = Some {| AbuseTracker.count := 0; AbuseTracker.lastAttempt := 2004000;
            AbuseTracker.blocked := false;
            AbuseTracker.blockUntil := None |} /\
  (logins Sample.later_attempts Sample.db ∅).2 !! "1.2.3.4"
  = Some {| AbuseTracker.count := 5; AbuseTracker.lastAttempt := 2004000;
            AbuseTracker.blocked := true;
            AbuseTracker.blockUntil := Some 2904000 |}.
Proof.
  repeat split; try (vm_compute; reflexivity).
  repeat (constructor; [split; reflexivity|]). constructor.
Qed.

Section ForgotPasswordFacts.

Import Errors Users Http Controllers.

Variable sha256 : string -> string.
Variable sendPasswordReset : string -> string -> string -> bool.

(** When no user has the address, and when a user has it and the mail is
    handed over, the answer is the same 200 with the generic message. *)
Lemma forgotPassword_generic e now raw req (db : Users.Store) mail :
  body_email req = Some mail ->
  (findOne (Text.toLowerCase mail) db = None \/
   forall a b c, sendPasswordReset a b c = true) ->
  respond (forgotPassword sha256 sendPasswordReset e now raw req db).1
  = Some (json 200 true genericResetMessage).
Proof.
  intros Hmail Hcase. unfold forgotPassword. rewrite Hmail.
  destruct (findOne _ db) as [u|]; [|done].
  destruct Hcase as [|Hsend]; [done|]. by rewrite Hsend.
Qed.

(** When a user has the address and the mail cannot be handed over, the
    answer is a 500 that names the failure, and the reset token is cleared
    again. *)
Lemma forgotPassword_mail_failure e now raw req (db : Users.Store) mail u :
  body_email req = Some mail ->
  findOne (Text.toLowerCase mail) db = Some u ->
  (forall a b c, sendPasswordReset a b c = false) ->
  respond (forgotPassword sha256 sendPasswordReset e now raw req db).1
  = Some (json 500 false "Email could not be sent").
Proof.
  intros Hmail Hfind Hsend. unfold forgotPassword.
  by rewrite Hmail, Hfind, Hsend.
Qed.

End ForgotPasswordFacts.

(** C7 on the code.  With a mail transport that is down, a forgot-password
    request for the address of an existing user is answered with status
    500 and "Email could not be sent", while the same request for an
    address that no user has is answered with status 200 and the generic
    message: the two statuses differ.  With the transport up both requests
    get the 200. *)
Theorem forgot_password_reveals_account :
  let answer send mail :=
    Http.respond (Controllers.forgotPassword Sample.sha256 send
                    Sample.env 1000 "r4nd0m" (Sample.attempt mail)
                    Sample.db).1 in
  Users.findOne "a@b.com" Sample.db = Some Sample.alice /\
  Users.findOne "c@d.com" Sample.db = None /\
  answer Sample.mail_down "a@b.com"
    = Some (Http.json 500 false "Email could not be sent") /\
  answer Sample.mail_down "c@d.com"
    = Some (Http.json 200 true Controllers.genericResetMessage) /\
  Http.status <$> answer Sample.mail_down "a@b.com"
    <> Http.status <$> answer Sample.mail_down "c@d.com" /\
  answer Sample.mail_up "a@b.com" = answer Sample.mail_up "c@d.com".
Proof. repeat split. discriminate. Qed.

(** ** The sanitizer *)

Section SanitizerFacts.

Import Sanitizer.

(** Structural induction on values, with the hypothesis for every item of
    an array and every member of an object. *)
Lemma Json_induction (P : Json -> Prop) :
  P JNull -> (forall b, P (JBool b)) -> (forall n, P (JNumber n)) ->
  (forall s, P (JString s)) ->
  (forall items, Forall P items -> P (JArray items)) ->
  (forall fields, Forall (fun kv => P kv.2) fields -> P (JObject fields)) ->
  forall v, P v.
Proof.
  intros Hnull Hbool Hnum Hstr Harr Hobj.
  fix IH 1. intros [| b | n | s | items | fields].
  - exact Hnull.
  - apply Hbool.
  - apply Hnum.
  - apply Hstr.
  - apply Harr. induction items as [|x items IHl]; constructor; [apply IH | exact IHl].
  - apply Hobj. induction fields as [|[k x] fields IHl]; constructor;
      [apply IH | exact IHl].
Qed.

Lemma replace_from_sublist m s : forall k,
  sublist (chars (replace_from m k s)) (chars s).
Proof.
  induction s as [|c r IH]; intros k; simpl; [constructor|].
  destruct k as [|k]; [|by apply sublist_cons].
  destruct (m (String c r)) as [[|n]|]; simpl;
    [by apply sublist_skip | by apply sublist_cons | by apply sublist_skip].
Qed.

Lemma trimStart_sublist s : sublist (chars (Text.trimStart s)) (chars s).
Proof.
  induction s as [|c r IH]; simpl; [constructor|].
  destruct (Text.is_space c); [by apply sublist_cons | done].
Qed.

Lemma trimEnd_sublist s : sublist (chars (Text.trimEnd s)) (chars s).
Proof.
  induction s as [|c r IH]; simpl; [constructor|].
  destruct (Text.trimEnd r) as [|c' r'] eqn:Hr.
  - destruct (Text.is_space c); simpl.
    + by apply sublist_cons.
    + by apply sublist_skip.
  - simpl in *. by apply sublist_skip.
Qed.

Lemma chain_sublist ms : forall s,
  sublist (chars (fold_left (fun acc m => remove_all m acc) ms s)) (chars s).
Proof.
  induction ms as [|m ms IH]; intros s; simpl; [done|].
  etrans; [apply IH | apply replace_from_sublist].
Qed.

Lemma sanitizeString_sublist s : sublist (chars (sanitizeString s)) (chars s).
Proof.
  unfold sanitizeString, Text.trim.
  etrans; [apply trimEnd_sublist|]. etrans; [apply trimStart_sublist|].
  apply chain_sublist.
Qed.

Lemma remove_all_absent m s : occurs m s = false -> remove_all m s = s.
Proof.
  unfold remove_all. induction s as [|c r IH]; simpl; [done|].
  destruct (m (String c r)); [discriminate|]. intros H. by rewrite IH.
Qed.

Lemma chain_absent ms : forall s,
  forallb (fun m => negb (occurs m s)) ms = true ->
  fold_left (fun acc m => remove_all m acc) ms s = s.
Proof.
  induction ms as [|m ms IH]; intros s H; simpl in *; [done|].
  apply andb_true_iff in H as [Hm Hms]. apply negb_true_iff in Hm.
  rewrite (remove_all_absent m s Hm). by apply IH.
Qed.

Lemma cleanKey_chars key : all_chars is_key_char (cleanKey key) = true.
Proof.
  induction key as [|c r IH]; simpl; [done|].
  destruct (is_key_char c) eqn:Hc; simpl; [by rewrite Hc | done].
Qed.

Lemma replace_property_clean k v o :
  fields_clean o = true -> keys_all clean_key v = true ->
  fields_clean (replace_property k v o) = true.
Proof.
  unfold fields_clean. intros Ho Hv.
  induction o as [|[k' v'] o IH]; simpl in *; [done|].
  apply andb_true_iff in Ho as [Hh Ht].
  destruct (String.eqb k' k); simpl.
  - apply andb_true_iff in Hh as [Hk _]. by rewrite Hk, Hv, Ht.
  - rewrite Hh. by rewrite IH.
Qed.

Lemma set_property_clean k v o :
  clean_key k = true -> sanitized_clean o = true ->
  keys_all clean_key v = true ->
  sanitized_clean (set_property k v o) = true.
Proof.
  intros Hk Ho Hv. destruct o as [p own]. unfold sanitized_clean in *.
  simpl in Ho. apply andb_true_iff in Ho as [Hp Hown].
  unfold set_property.
  destruct (has_property k own); simpl.
  - by rewrite Hp, replace_property_clean.
  - destruct (String.eqb k "__proto__" && inherits_accessor p); simpl.
    + rewrite Hown, andb_true_r. by destruct v.
    + rewrite Hp. unfold fields_clean in *. rewrite forallb_app, Hown.
      simpl. by rewrite Hk, Hv.
Qed.

Lemma sanitizeEntries_clean f fs : forall acc,
  Forall (fun kv => keys_all clean_key (f kv.2) = true) fs ->
  sanitized_clean acc = true ->
  sanitized_clean (sanitizeEntries f fs acc) = true.
Proof.
  induction fs as [|[k x] fs IH]; intros acc Hfs Hacc; simpl; [done|].
  apply Forall_cons in Hfs as [Hx Hfs]. apply IH; [done|].
  destruct (cleanKey k) as [|c r] eqn:Hk; [done|].
  apply set_property_clean; [|done|exact Hx].
  unfold clean_key. rewrite <- Hk, cleanKey_chars. by rewrite Hk.
Qed.

(** Every own key of every object that [sanitizeObject] makes is non-empty
    and has only characters of [[A-Za-z0-9_.-]]. *)
Lemma sanitizeObject_keys v : keys_all clean_key (sanitizeObject v) = true.
Proof.
  induction v as [| b | n | s | items IH | fields IH] using Json_induction;
    try done.
  - simpl. induction IH as [|x items Hx _ IHl]; simpl; [done|].
    by rewrite Hx, IHl.
  - pose proof (sanitizeEntries_clean sanitizeObject fields
                  (ObjectPrototype, []) IH eq_refl) as H.
    cbn [sanitizeObject].
    destruct (sanitizeEntries sanitizeObject fields (ObjectPrototype, []))
      as [p own].
    unfold sanitized_clean in H. simpl in *.
    apply andb_true_iff in H as [Hp Hown]. rewrite andb_true_iff. split.
    + by destruct p.
    + exact Hown.
Qed.

(** The middleware rewrites both members with [sanitizeObject]: the values
    it skips as falsy are left alone by [sanitizeObject] as well. *)
Lemma sanitizeInput_both body query :
  sanitizeInput body query = (sanitizeObject <$> body, sanitizeObject <$> query).
Proof.
  assert (H : forall v : option Json,
            (if json_truthy v then option_map sanitizeObject v
             else option_map asValue v)
            = sanitizeObject <$> v).
  { intros [[| [|] | [|p|p] | [|c r] | items | fields]|]; reflexivity. }
  unfold sanitizeInput. by rewrite !H.
Qed.

(** A text comes out as the input text with characters deleted, and a text
    in which no listed pattern occurs is only trimmed. *)
Lemma sanitizeString_deletes s :
  sublist (chars (sanitizeString s)) (chars s) /\
  (pattern_free s = true -> sanitizeString s = Text.trim s).
Proof.
  split; [apply sanitizeString_sublist|].
  intros Hs. unfold sanitizeString. by rewrite chain_absent.
Qed.

(** C8 on the code.  The code removes, pattern by pattern, the matches it
    finds in one pass from left to right, and never looks at the result
    again; the removals can put a listed pattern together.  For the body
    [Sample.crafted_body] the sanitized texts are the operator $ne, a
    complete script element, a javascript: URI and an inline event
    handler: each still matches the pattern that [sanitizeObject] removes,
    so the output is not free of the listed patterns. *)
Theorem sanitizer_leaves_patterns :
  (sanitizeInput (Some Sample.crafted_body) None).1
  = Some (VObject ObjectPrototype
            [ ("filter", VString "$ne");
              ("note", VString "<script>alert(1)</script>");
              ("link", VArray [VString "javascript:x"]);
              ("attr", VString "onclick=x") ]) /\
  literal "$ne" "$ne" = Some 3%nat /\
  script_tag "<script>alert(1)</script>" = Some 25%nat /\
  literal "javascript:" "javascript:x" = Some 11%nat /\
  event_handler "onclick=x" = Some 8%nat /\
  strings_all pattern_free <$> (sanitizeInput (Some Sample.crafted_body) None).1
  = Some false.
Proof. repeat split; vm_compute; reflexivity. Qed.

End SanitizerFacts.

(** ** More on the abuse tracker *)

Section AbuseTrackerMore.

Import AbuseTracker Maintenance.

Lemma run_append e cs1 cs2 (s : Store) :
  run e (cs1 ++ cs2)%list s
  = (((run e cs1 s).1 ++ (run e cs2 (run e cs1 s).2).1)%list,
     (run e cs2 (run e cs1 s).2).2).
Proof.
  revert s. induction cs1 as [|[i t|i t] cs1 IH]; intros s; simpl.
  - by destruct (run e cs2 s).
  - apply IH.
  - destruct (isBlocked t i s) as [b s1]. rewrite IH.
    destruct (run e cs1 s1) as [l1 s2]. simpl.
    by destruct (run e cs2 s2).
Qed.

Lemma isBlocked_of_unblocked now id c (s : Store) :
  unblocked id c s -> isBlocked now id s = (false, s).
Proof.
  unfold unblocked, isBlocked. destruct (s !! id) as [a|]; [|done].
  by intros [-> _].
Qed.

Lemma track_of_unblocked e now id c (s : Store) :
  unblocked id c s -> c + 1 < threshold e ->
  unblocked id (c + 1) (trackSuspiciousActivity e now id "failed_login" s).
Proof.
  unfold unblocked. intros Hu Hlt. rewrite track_same.
  unfold bumped. destruct (s !! id) as [a|]; simpl.
  - destruct Hu as [Hb <-]. rewrite Hb.
    destruct (Z.leb_spec (threshold e) (count a + 1)); [lia | done].
  - subst c. destruct (Z.leb_spec (threshold e) (0 + 1)); [lia | done].
Qed.

Lemma unblocked_other_track e now id id' c (s : Store) :
  id' <> id -> unblocked id c s ->
  unblocked id c (trackSuspiciousActivity e now id' "failed_login" s).
Proof. intros Hne. unfold unblocked. by rewrite track_other. Qed.

Lemma unblocked_other_ask now id id' c (s : Store) :
  id' <> id -> unblocked id c s -> unblocked id c (isBlocked now id' s).2.
Proof. intros Hne. unfold unblocked. by rewrite isBlocked_other. Qed.

Lemma run_keeps_unblocked e id cs : forall c (s : Store),
  unblocked id c s ->
  c + Z.of_nat (failures id cs) < threshold e ->
  unblocked id (c + Z.of_nat (failures id cs)) (run e cs s).2.
Proof.
  induction cs as [|[i t|i t] cs IH]; intros c s Hu Hlt; simpl in *.
  - by rewrite Z.add_0_r.
  - destruct (decide (i = id)) as [->|Hne].
    + replace (c + Z.of_nat (S (failures id cs)))
        with (c + 1 + Z.of_nat (failures id cs)) in * by lia.
      apply IH; [|done]. apply track_of_unblocked; [done | lia].
    + apply IH; [|done]. by apply unblocked_other_track.
  - destruct (decide (i = id)) as [->|Hne].
    + rewrite (isBlocked_of_unblocked t id c s Hu).
      specialize (IH c s Hu Hlt). by destruct (run e cs s).
    + pose proof (unblocked_other_ask t id i c s Hne Hu) as Hu1.
      destruct (isBlocked t i s) as [b s1]. simpl in Hu1.
      specialize (IH c s1 Hu1 Hlt). by destruct (run e cs s1).
Qed.

(** X1.  Fewer failures than the threshold never block: from a record
    that is not blocked and has counted [c] failures (or no record), a
    history that brings the count to less than [threshold] leaves the
    identifier unblocked with that count, and every [isBlocked] asked on
    the way answers [false]. *)
Theorem below_threshold_never_blocked e id cs : forall c (s : Store),
  unblocked id c s ->
  c + Z.of_nat (failures id cs) < threshold e ->
  unblocked id (c + Z.of_nat (failures id cs)) (run e cs s).2 /\
  (forall t b, (id, t, b) ∈ (run e cs s).1 -> b = false).
Proof.
  induction cs as [|[i t|i t] cs IH]; intros c s Hu Hlt; simpl in *.
  - rewrite Z.add_0_r. split; [done|]. intros t b H. by apply elem_of_nil in H.
  - destruct (decide (i = id)) as [->|Hne].
    + replace (c + Z.of_nat (S (failures id cs)))
        with (c + 1 + Z.of_nat (failures id cs)) in * by lia.
      apply IH; [|done]. apply track_of_unblocked; [done | lia].
    + apply IH; [|done]. by apply unblocked_other_track.
  - destruct (decide (i = id)) as [->|Hne].
    + rewrite (isBlocked_of_unblocked t id c s Hu).
      destruct (IH c s Hu Hlt) as [H1 H2].
      destruct (run e cs s) as [log s2]. simpl in *. split; [done|].
      intros t' b' Hin.
      apply elem_of_cons in Hin as [[= -> ->]|Hin]; [done | by eapply H2].
    + pose proof (unblocked_other_ask t id i c s Hne Hu) as Hu1.
      destruct (isBlocked t i s) as [b s1]. simpl in Hu1.
      destruct (IH c s1 Hu1 Hlt) as [H1 H2].
      destruct (run e cs s1) as [log s2]. simpl in *. split; [done|].
      intros t' b' Hin.
      apply elem_of_cons in Hin as [[= ? ? ?]|Hin]; [congruence | by eapply H2].
Qed.


(** X2.  The lockout runs from the failure that reaches the threshold:
    when the failure recorded at clock value [t] brings the count of an
    unblocked identifier to [threshold], the deadline is
    [t + lockoutDuration], and nothing recorded or asked afterwards up to
    the deadline moves it; later failures do not extend the lockout. *)
Theorem deadline_from_threshold_failure e id pre t post c (s : Store) :
  unblocked id c s ->
  c + Z.of_nat (failures id pre) + 1 = threshold e ->
  checked_by id (t + lockoutDuration e) post = true ->
  blocked_until id (t + lockoutDuration e)
    (run e (pre ++ Track id t :: post)%list s).2.
Proof.
  intros Hu Hthr Hpost.
  rewrite run_append. simpl.
  pose proof (run_keeps_unblocked e id pre c s Hu ltac:(lia)) as Hu1.
  set (s1 := (run e pre s).2) in *.
  apply run_stays_blocked; [|done].
  exists (bumped e t (s1 !! id)). rewrite track_same. split; [done|].
  unfold unblocked in Hu1. unfold bumped.
  destruct (s1 !! id) as [a|]; simpl.
  - destruct Hu1 as [Hb Hc]. rewrite Hb.
    destruct (Z.leb_spec (threshold e) (count a + 1)); [done | lia].
  - destruct (Z.leb_spec (threshold e) (0 + 1)); [done | lia].
Qed.

(** X3.  Once [isBlocked] has answered [false] for an identifier it keeps
    answering [false], at any clock value and without changing the map
    again, until a failure is recorded. *)
Theorem unblocked_stays_unblocked now now' id (s : Store) :
  (isBlocked now id s).1 = false ->
  isBlocked now' id (isBlocked now id s).2 = (false, (isBlocked now id s).2).
Proof.
  unfold isBlocked. destruct (s !! id) as [a|] eqn:Ha; simpl; [|by rewrite Ha].
  destruct (blocked a) eqn:Hb; simpl; [|by rewrite Ha, Hb].
  destruct (blockUntil a) as [bu|] eqn:Hu; simpl; [|by rewrite Ha, Hb, Hu].
  destruct (bu <? now); simpl; [|done].
  intros _. by rewrite lookup_insert_eq.
Qed.

(** X4.  One call of [trackSuspiciousActivity]: the record of the
    identifier exists afterwards (the clean-up at the end of the function
    never removes it), counts one more than before, carries the clock
    value, and the record of no other identifier is touched. *)
Theorem track_records_failure e now id ty (s : Store) :
  (exists a, trackSuspiciousActivity e now id ty s !! id = Some a /\
             count a = count_of s id + 1 /\ lastAttempt a = now) /\
  (forall id', id' <> id ->
     trackSuspiciousActivity e now id ty s !! id' = s !! id').
Proof.
  split.
  - exists (bumped e now (s !! id)). rewrite track_same. split; [done|].
    unfold count_of, bumped. destruct (s !! id) as [a|]; simpl;
      by destruct (_ && _).
  - intros id' Hne. by apply track_other.
Qed.

(** X5.  The hourly sweep deletes a record whose last attempt is more
    than a day old even when it is blocked, so that [isBlocked] answers
    [false] for it afterwards at any clock value; it keeps every younger
    record as it is. *)
Theorem sweep_drops_old_records now (s : Store) id :
  (forall a, s !! id = Some a -> lastAttempt a < now - 86400000 ->
     sweep now s !! id = None /\
     forall t, isBlocked t id (sweep now s) = (false, sweep now s)) /\
  (forall a, s !! id = Some a -> now - 86400000 <= lastAttempt a ->
     sweep now s !! id = Some a) /\
  (s !! id = None -> sweep now s !! id = None).
Proof.
  unfold sweep. repeat split.
  - apply map_lookup_filter_None. right. intros a' Ha'. simpl.
    rewrite H in Ha'. injection Ha' as <-. lia.
  - intros t. unfold isBlocked.
    assert (Hn : filter (fun kv : string * Activity =>
                   ~ lastAttempt kv.2 < now - 24 * 60 * 60 * 1000) s !! id = None).
    { apply map_lookup_filter_None. right. intros a' Ha'. simpl.
      rewrite H in Ha'. injection Ha' as <-. lia. }
    by rewrite Hn.
  - intros a Ha Hrecent. apply map_lookup_filter_Some. split; [done|]. simpl. lia.
  - intros Hn. apply map_lookup_filter_None. by left.
Qed.

End AbuseTrackerMore.

(** ** More on signed credentials *)

Section JwtMore.

Import Errors Users Jwt.

Lemma configured_secret v : env_missing v = false -> v = Some (or_else v "").
Proof. destruct v as [[|c r]|]; simpl; done. Qed.

Lemma live_before_expiry x now : now < 1000 * x -> (x <=? now / 1000) = false.
Proof.
  intros H. apply Z.leb_gt. apply Z.div_lt_upper_bound; lia.
Qed.

Lemma dead_from_expiry x now : 1000 * x <= now -> (x <=? now / 1000) = true.
Proof.
  intros H. apply Z.leb_le. apply Z.div_le_lower_bound; lia.
Qed.

(** X6.  A credential that [generateRefreshToken] produced is accepted by
    [verifyRefreshToken] under the same environment at every clock value
    before its expiry, with the user's id, email and role; its lifetime is
    thirty days when none is configured. *)
Theorem refresh_token_round_trip e now now' u tok :
  generateRefreshToken e now u = inr tok ->
  (forall x, expiry tok = Some x -> now' < 1000 * x) ->
  (exists c, verifyRefreshToken e now' tok = inr c /\
             payload c = payloadOf u /\ iat c = now / 1000) /\
  (env_missing (JWT_REFRESH_EXPIRES_IN e) = true ->
   expiry tok = Some (now / 1000 + 30 * 24 * 60 * 60)).
Proof.
  unfold generateRefreshToken, verifyRefreshToken.
  destruct (env_missing (JWT_REFRESH_SECRET e)); [discriminate|].
  unfold sign. destruct (timespan _ _) as [x|] eqn:Hx; [|discriminate].
  intros [= <-] Hlive. simpl in *. split.
  - rewrite bool_decide_eq_true_2 by done.
    rewrite (live_before_expiry x now' (Hlive x eq_refl)). by eexists.
  - intros Httl.
    assert (Hd : or_else (JWT_REFRESH_EXPIRES_IN e) "30d" = "30d").
    { unfold env_missing in Httl. unfold or_else.
      destruct (JWT_REFRESH_EXPIRES_IN e) as [[|]|]; done. }
    rewrite Hd in Hx. by injection Hx as <-.
Qed.

(** X7.  Every credential that [generateAccessToken] produces carries an
    expiry, and from that second on [verifyAccessToken] refuses it. *)
Theorem issued_token_expires e now u tok :
  generateAccessToken e now u = inr tok ->
  exists x, expiry tok = Some x /\
    forall now', 1000 * x <= now' ->
      verifyAccessToken e now' tok = inl (mkError "Invalid access token").
Proof.
  unfold generateAccessToken, verifyAccessToken.
  destruct (env_missing (JWT_SECRET e)); [discriminate|].
  unfold sign. destruct (timespan _ _) as [x|]; [|discriminate].
  intros [= <-]. exists x. split; [done|]. intros now' Hdead. simpl.
  rewrite bool_decide_eq_true_2 by done.
  by rewrite (dead_from_expiry x now' Hdead).
Qed.

(** X8.  An access credential presented as a refresh credential, before
    its expiry, is refused when the two secrets differ and accepted when
    they are the same text. *)
Theorem access_token_as_refresh_token e now now' u tok :
  generateAccessToken e now u = inr tok ->
  env_missing (JWT_REFRESH_SECRET e) = false ->
  (forall x, expiry tok = Some x -> now' < 1000 * x) ->
  (JWT_SECRET e <> JWT_REFRESH_SECRET e ->
     verifyRefreshToken e now' tok = inl (mkError "Invalid refresh token")) /\
  (JWT_SECRET e = JWT_REFRESH_SECRET e ->
     exists c, verifyRefreshToken e now' tok = inr c /\ payload c = payloadOf u).
Proof.
  unfold generateAccessToken, verifyRefreshToken.
  destruct (env_missing (JWT_SECRET e)) eqn:Hs; [discriminate|].
  unfold sign. destruct (timespan _ _) as [x|]; [|discriminate].
  intros [= <-] Hr Hlive. rewrite Hr. simpl in *.
  apply configured_secret in Hs. apply configured_secret in Hr.
  split.
  - intros Hne. rewrite bool_decide_eq_false_2; [done|].
    intros [= Heq]. apply Hne. by rewrite Hs, Hr, Heq.
  - intros Heq. rewrite <- Heq. rewrite bool_decide_eq_true_2 by done.
    rewrite (live_before_expiry x now' (Hlive x eq_refl)). by eexists.
Qed.

End JwtMore.

(** ** The global error handler *)

Section ErrorHandlerFacts.

Import Errors Http Fallbacks.

Lemma prefix_before_separator n : forall x c suf,
  lacks c n = true ->
  String.prefix n (x ++ String c suf) = String.prefix n x.
Proof.
  induction n as [|a n IH]; intros x c suf Hn; [by destruct x|].
  simpl in Hn. apply andb_true_iff in Hn as [Ha Hn].
  apply negb_true_iff, Ascii.eqb_neq in Ha.
  destruct x as [|b x]; simpl.
  - by destruct (ascii_dec a c).
  - destruct (ascii_dec a b); [by apply IH | done].
Qed.

Lemma includes_cons n b y :
  Text.includes n (String b y)
  = String.prefix n (String b y) || Text.includes n y.
Proof. reflexivity. Qed.

Lemma includes_before_separator n c suf : forall x,
  lacks c n = true -> n <> "" ->
  Text.includes n (x ++ String c suf)
  = Text.includes n x || Text.includes n (String c suf).
Proof.
  intros x Hn Hne. induction x as [|b x IH].
  - destruct n; [done|]. reflexivity.
  - change (String b x ++ String c suf) with (String b (x ++ String c suf)).
    rewrite !includes_cons, IH, orb_assoc. f_equal. f_equal.
    change (String b (x ++ String c suf)) with (String b x ++ String c suf).
    by apply prefix_before_separator.
Qed.

Lemma oauth_in_route url :
  Text.includes "oauth" ("Route " ++ url ++ " not found")
  = Text.includes "oauth" url.
Proof.
  transitivity (Text.includes "oauth" (url ++ " not found")); [reflexivity|].
  rewrite includes_before_separator by done.
  apply orb_false_r.
Qed.

Lemma oauthMessage_keeps m :
  match oauthMessage m with
  | "" => "Internal Server Error"
  | String c r => String c r
  end = oauthMessage m.
Proof. unfold oauthMessage. repeat case_match; done. Qed.

(** X9.  An [AppError] with a non-zero status and a non-empty message that
    does not contain "oauth" is answered with exactly that status and
    message. *)
Theorem errorHandler_keeps_AppError msg st :
  st <> 0 -> msg <> "" -> Text.includes "oauth" msg = false ->
  errorHandler (AppError msg st) = Some (json st false msg).
Proof.
  intros Hst Hmsg Hoauth. unfold errorHandler, AppError. simpl.
  rewrite Hoauth. simpl. destruct st; [done | | ]; by destruct msg.
Qed.

(** X10.  An unknown route is answered 404 with the route in the message,
    unless its URL contains "oauth": then the OAuth branch of the global
    handler takes over and the answer is a 400 with an OAuth message. *)
Theorem notFound_answer url :
  respond (Thrown (notFound url))
  = Some (if Text.includes "oauth" url
          then json 400 false (oauthMessage ("Route " ++ url ++ " not found"))
          else json 404 false ("Route " ++ url ++ " not found")).
Proof.
  unfold respond, errorHandler, notFound, AppError.
  cbn [name message statusCode code String.eqb Ascii.eqb Bool.eqb].
  rewrite oauth_in_route. simpl.
  destruct (Text.includes "oauth" url); simpl; [|done].
  unfold json. do 2 f_equal. apply oauthMessage_keeps.
Qed.

(** The answer that the handler builds from the status and message left at
    the end is well formed. *)
Lemma final_answer_well_formed (final : option Z * string) :
  let r := json match final.1 with
                | None | Some 0 => 500
                | Some n => n
                end false
                match final.2 with
                | "" => "Internal Server Error"
                | m => m
                end in
  success r = false /\ status r <> 0 /\ body_message r <> "".
Proof.
  destruct final as [[[|p|p]|] [|c m]]; simpl; repeat split; done.
Qed.

Lemma messages_None values :
  messages values = None <-> In None values.
Proof.
  induction values as [|[m|] values IH]; simpl.
  - split; [discriminate | done].
  - destruct (messages values); simpl.
    + split; [discriminate|]. intros [H|H]; [discriminate|].
      by apply IH in H.
    + split; [intros _; right; by apply IH | done].
  - split; [by left | done].
Qed.

(** X11.  The global handler sends no answer, because it throws itself, in
    exactly two cases: the error has the code 11000 and no [keyValue], or
    it is named ValidationError and has no [errors] or a missing value
    among them.  In every other case it answers, and every answer has
    [success = false], a status other than 0 and a non-empty message. *)
Theorem errorHandler_answer_well_formed err :
  (errorHandler err = None <->
     (code err = Some (inl 11000) /\ keyValue err = None) \/
     (name err = "ValidationError" /\
      (errors err = None \/
       exists values, errors err = Some values /\ In None values))) /\
  (forall r, errorHandler err = Some r ->
     success r = false /\ status r <> 0 /\ body_message r <> "").
Proof.
  unfold errorHandler.
  set (e0 := if String.eqb (name err) "CastError"
             then (Some 404, "Resource not found")
             else (statusCode err, message err)).
  assert (Hdup : forall T (x y : T),
            code err <> Some (inl 11000) ->
            match code err with
            | Some (inl 11000) => x
            | _ => y
            end = y).
  { intros T x y Hne. destruct (code err) as [[z|c]|]; try done.
    destruct z as [|q|q]; try done.
    destruct (decide (q = 11000%positive)) as [->|Hq]; [done|].
    repeat (destruct q as [q|q|]; try done). }
  destruct (decide (code err = Some (inl 11000))) as [Hc|Hc].
  - rewrite Hc. destruct (keyValue err) as [keys|] eqn:Hkeys; simpl.
    + destruct (String.eqb_spec (name err) "ValidationError") as [Hn|Hn].
      * destruct (errors err) as [values|] eqn:Hvals; simpl.
        -- destruct (messages values) as [ms|] eqn:Hms; simpl.
           ++ split.
              ** split; [discriminate|].
                 intros [[_ [=]]|[_ [[=]|(vs & [= <-] & Hin)]]].
                 apply messages_None in Hin. congruence.
              ** intros r [= <-]. apply (final_answer_well_formed (_, _)).
           ++ split; [|discriminate]. split; [|done]. intros _. right.
              split; [done|]. right. exists values. split; [done|].
              by apply messages_None.
        -- split; [|discriminate]. split; [|done]. intros _. right.
           split; [done|]. by left.
      * simpl. split.
        -- split; [discriminate|]. intros [[_ [=]]|[Hn' _]]. done.
        -- intros r [= <-]. apply (final_answer_well_formed (_, _)).
    + split; [|discriminate]. split; [|done]. intros _. by left.
  - rewrite (Hdup _ _ _ Hc). simpl.
    destruct (String.eqb_spec (name err) "ValidationError") as [Hn|Hn].
    + destruct (errors err) as [values|] eqn:Hvals; simpl.
      * destruct (messages values) as [ms|] eqn:Hms; simpl.
        -- split.
           ++ split; [discriminate|].
              intros [[Hc' _]|[_ [[=]|(vs & [= <-] & Hin)]]]; [done|].
              apply messages_None in Hin. congruence.
           ++ intros r [= <-]. apply (final_answer_well_formed (_, _)).
        -- split; [|discriminate]. split; [|done]. intros _. right.
           split; [done|]. right. exists values. split; [done|].
           by apply messages_None.
      * split; [|discriminate]. split; [|done]. intros _. right.
        split; [done|]. by left.
    + simpl. split.
      * split; [discriminate|]. intros [[Hc' _]|[Hn' _]]; done.
      * intros r [= <-]. apply (final_answer_well_formed (_, _)).
Qed.

End ErrorHandlerFacts.

(** ** Request guards *)

Section GuardFacts.

Import Errors Users Http Jwt Guards.

Lemma issued_token_accepted e now now' u tok :
  generateAccessToken e now u = inr tok ->
  (forall x, expiry tok = Some x -> now' < 1000 * x) ->
  exists c, verifyAccessToken e now' tok = inr c /\ payload c = payloadOf u.
Proof.
  unfold generateAccessToken, verifyAccessToken.
  destruct (env_missing (JWT_SECRET e)); [discriminate|].
  unfold sign. destruct (timespan _ _) as [x|]; [|discriminate].
  intros [= <-] Hlive. simpl in *.
  rewrite bool_decide_eq_true_2 by done.
  rewrite (live_before_expiry x now' (Hlive x eq_refl)). by eexists.
Qed.

Lemma accepted_token_shape e now t c :
  verifyAccessToken e now t = inr c ->
  env_missing (JWT_SECRET e) = false /\
  t = Jws c (JWT_SECRET e) /\
  (forall x, exp c = Some x -> now < 1000 * x).
Proof.
  unfold verifyAccessToken.
  destruct (env_missing (JWT_SECRET e)) eqn:Hs; [discriminate|].
  destruct t as [raw|c0 k]; simpl; [discriminate|].
  destruct (bool_decide_reflect (k = Some (or_else (JWT_SECRET e) "")))
    as [->|]; [|discriminate].
  rewrite <- (configured_secret _ Hs).
  destruct (exp c0) as [x|] eqn:Hx.
  - destruct (Z.leb_spec x (now / 1000)) as [|Hlt]; [discriminate|].
    intros [= <-]. split; [done|]. split; [done|]. intros x' Hx'.
    rewrite Hx in Hx'. injection Hx' as <-.
    pose proof (Z.mod_pos_bound now 1000 ltac:(lia)).
    pose proof (Z.div_mod now 1000 ltac:(lia)). lia.
  - intros [= <-]. split; [done|]. split; [done|]. intros x' Hx'. congruence.
Qed.

(** X12.  A credential issued for a user opens [authenticateJWT] before
    its expiry: the record that the store holds under the user's id at
    that moment is attached, without its password. *)
Theorem authenticate_round_trip e now now' u tok (db : Users.Store) u' :
  generateAccessToken e now u = inr tok ->
  (forall x, expiry tok = Some x -> now' < 1000 * x) ->
  findById (_id u) db = Some u' ->
  authenticateJWT e now' db (Some (Bearer tok)) = inr (withoutPassword u') /\
  password (withoutPassword u') = None.
Proof.
  intros Hgen Hlive Hfind.
  destruct (issued_token_accepted e now now' u tok Hgen Hlive) as (c & Hc & Hp).
  unfold authenticateJWT. rewrite Hc, Hp. simpl. by rewrite Hfind.
Qed.

(** X13.  [authenticateJWT] answers 401 whenever it does not attach a
    user, and it attaches one only for a credential whose signature
    verifies under the access secret and whose expiry has not passed, and
    only the stored record of the id in its claims.  [optionalAuth]
    attaches exactly the same user, and nothing in the other cases. *)
Theorem authenticate_sound e now (db : Users.Store) h :
  (forall r, authenticateJWT e now db h = inl r ->
     status r = 401 /\ success r = false) /\
  (forall v, authenticateJWT e now db h = inr v ->
     exists c u,
       h = Some (Bearer (Jws c (JWT_SECRET e))) /\
       env_missing (JWT_SECRET e) = false /\
       (forall x, exp c = Some x -> now < 1000 * x) /\
       findById (userId (payload c)) db = Some u /\
       v = withoutPassword u) /\
  optionalAuth e now db h
  = match authenticateJWT e now db h with
    | inr v => Some v
    | inl _ => None
    end.
Proof.
  unfold authenticateJWT, optionalAuth.
  assert (Hrefuse : forall (m : string) (o : option User),
            (forall r, @inl Response User (json 401 false m) = inl r ->
               status r = 401 /\ success r = false) /\
            (forall v, @inl Response User (json 401 false m) = inr v ->
               exists c u,
                 h = Some (Bearer (Jws c (JWT_SECRET e))) /\
                 env_missing (JWT_SECRET e) = false /\
                 (forall x, exp c = Some x -> now < 1000 * x) /\
                 findById (userId (payload c)) db = Some u /\
                 v = withoutPassword u) /\
            (None : option User) = None).
  { intros m o. split; [by intros r [= <-]|]. split; [discriminate | done]. }
  destruct h as [[t|raw]|]; try apply (Hrefuse _ None).
  destruct (verifyAccessToken e now t) as [err|c] eqn:Hv;
    [apply (Hrefuse _ None)|].
  destruct (accepted_token_shape e now t c Hv) as (Hs & -> & Hlive).
  destruct (findById _ db) as [u|] eqn:Hu; [|apply (Hrefuse _ None)].
  split; [discriminate|]. split; [|done].
  intros v [= <-]. by exists c, u.
Qed.

(** X14.  A route guarded by [authenticateJWT, authorizeRoles(roles)]
    decides on the role the store holds for the user when the request
    arrives, not on the role written into the credential when it was
    issued. *)
Theorem role_read_from_store roles e now now' u tok (db : Users.Store) u' :
  generateAccessToken e now u = inr tok ->
  (forall x, expiry tok = Some x -> now' < 1000 * x) ->
  findById (_id u) db = Some u' ->
  roleGuarded roles e now' db (Some (Bearer tok))
  = if List.existsb (String.eqb (roleName (role u'))) roles then None
    else Some (json 403 false "Access denied. Insufficient permissions.").
Proof.
  intros Hgen Hlive Hfind.
  destruct (issued_token_accepted e now now' u tok Hgen Hlive) as (c & Hc & Hp).
  unfold roleGuarded, authenticateJWT. rewrite Hc, Hp. simpl.
  by rewrite Hfind.
Qed.

Lemma findById_save u (db : Users.Store) v :
  findById (_id u) db = Some v -> findById (_id u) (save u db) = Some u.
Proof.
  unfold findById, save.
  induction db as [|w db IH]; simpl; [discriminate|].
  destruct (String.eqb_spec (_id w) (_id u)) as [Hw|Hw]; simpl.
  - by rewrite String.eqb_refl.
  - destruct (String.eqb_spec (_id w) (_id u)); [done | apply IH].
Qed.

(** X15.  When a user whose email address is not verified signs in through
    a provider, the credential issued for the returned record is answered
    403 "Email verification required" by the guarded routes. *)
Theorem linked_unverified_user_is_refused
    pr newId p (db : Users.Store) mail u e now now' :
  hd_error (Passport.emails p) = Some mail -> mail <> "" ->
  findOne mail db = Some u ->
  findById (_id u) db = Some u ->
  isEmailVerified u = false ->
  forall u1 db1 tok,
    Passport.verifyCallback pr newId p db = (Passport.DoneUser u1, db1) ->
    generateAccessToken e now u1 = inr tok ->
    (forall x, expiry tok = Some x -> now' < 1000 * x) ->
    logoutRoute e now' db1 (Some (Bearer tok))
    = json 403 false "Email verification required".
Proof.
  intros Hmail Hne Hfind Hid Hunv u1 db1 tok Hcb Hgen Hlive.
  assert (Ht : Passport.truthy (Some mail) = true) by (by destruct mail).
  assert (Hu1 : _id u1 = _id u /\ isEmailVerified u1 = false /\ db1 = save u1 db).
  { destruct pr; simpl in Hcb;
      unfold Passport.googleVerify, Passport.githubVerify in Hcb;
      rewrite Hmail, Ht in Hcb; simpl in Hcb; rewrite Hfind in Hcb;
      injection Hcb as <- <-; done. }
  destruct Hu1 as (Hid1 & Hv1 & ->).
  assert (Hstored : findById (_id u1) (save u1 db) = Some u1).
  { apply (findById_save u1 db u). by rewrite Hid1. }
  destruct (issued_token_accepted e now now' u1 tok Hgen Hlive) as (c & Hc & Hp).
  unfold logoutRoute, authenticateJWT. rewrite Hc, Hp. simpl.
  rewrite Hstored. simpl. by rewrite Hv1.
Qed.

End GuardFacts.

(** ** More on OAuth account linking *)

Section PassportMore.

Import Errors Users Passport.

Lemma findOne_created mail u (db : Users.Store) :
  findOne mail db = None -> email u = mail ->
  findOne mail (create u db) = Some u.
Proof.
  unfold findOne, create. intros Hnone Hmail.
  induction db as [|v db IH]; simpl in *.
  - by rewrite Hmail, String.eqb_refl.
  - destruct (String.eqb (email v) mail); [discriminate | by apply IH].
Qed.

Lemma save_fresh u (db : Users.Store) :
  Forall (fun v => _id v <> _id u) db -> save u db = db.
Proof.
  unfold save. induction 1 as [|v db Hv _ IH]; simpl; [done|].
  rewrite IH. by destruct (String.eqb_spec (_id v) (_id u)).
Qed.

Lemma save_created u (db : Users.Store) :
  Forall (fun v => _id v <> _id u) db -> save u (create u db) = create u db.
Proof.
  intros Hfresh. unfold save, create. rewrite map_app. simpl.
  rewrite String.eqb_refl. f_equal. by apply save_fresh.
Qed.

Lemma save_lookup_other u' (db : Users.Store) : forall i v,
  db !! i = Some v -> _id v <> _id u' -> save u' db !! i = Some v.
Proof.
  unfold save. induction db as [|w db IH]; intros [|i] v Hi Hv;
    simpl in *; try done.
  - injection Hi as ->. by destruct (String.eqb_spec (_id v) (_id u')).
  - by apply IH.
Qed.

(** X16.  When no record has the profile's email address, the callback
    stores one new record and changes no other: it has the given id and
    the address, no password, the role [user], a verified email address
    and only this provider's id; it is what a lookup by the address finds
    afterwards. *)
Theorem first_login_creates_account pr newId p (db : Users.Store) mail :
  hd_error (emails p) = Some mail -> mail <> "" ->
  findOne mail db = None ->
  exists u,
    verifyCallback pr newId p db = (DoneUser u, (db ++ [u])%list) /\
    findOne mail (db ++ [u])%list = Some u /\
    _id u = newId /\ email u = mail /\ password u = None /\
    role u = user /\ isEmailVerified u = true /\
    providerId pr u = Some (id p) /\
    (forall pr', pr' <> pr -> providerId pr' u = None).
Proof.
  intros Hmail Hne Hnone.
  assert (Ht : truthy (Some mail) = true) by (by destruct mail).
  destruct pr; simpl; unfold googleVerify, githubVerify;
    rewrite Hmail, Ht; simpl; rewrite Hnone;
    (eexists; split; [reflexivity|]);
    (split; [by apply findOne_created|]);
    repeat (split; [done|]); intros []; done.
Qed.

(** X17.  Signing in twice does not make two accounts: after the first
    login created the record under a fresh id, a second login with the
    same profile returns that record again and leaves the store as it
    is. *)
Theorem second_login_reuses_account pr id1 id2 p (db : Users.Store) mail :
  hd_error (emails p) = Some mail -> mail <> "" ->
  findOne mail db = None ->
  Forall (fun v => _id v <> id1) db ->
  forall u db1,
    verifyCallback pr id1 p db = (DoneUser u, db1) ->
    verifyCallback pr id2 p db1 = (DoneUser u, db1) /\
    length db1 = S (length db).
Proof.
  intros Hmail Hne Hnone Hfresh u db1 Hfirst.
  assert (Ht : truthy (Some mail) = true) by (by destruct mail).
  assert (Hshape : db1 = create u db /\ _id u = id1 /\ email u = mail /\
                   avatar u = hd_error (photos p) /\
                   verifyCallback pr id2 p db1
                   = (DoneUser u, save u db1)).
  { destruct pr; simpl in Hfirst |- *;
      unfold googleVerify, githubVerify in Hfirst |- *;
      rewrite Hmail, Ht in Hfirst; simpl in Hfirst; rewrite Hnone in Hfirst;
      injection Hfirst as <- <-;
      (split; [done|]); (split; [done|]); (split; [done|]); (split; [done|]);
      rewrite Hmail, Ht; simpl;
      rewrite findOne_created by done; unfold backfillAvatar; simpl;
      by destruct (negb _ && _). }
  destruct Hshape as (-> & Hid & Hm & Hav & ->).
  rewrite save_created by (by rewrite Hid).
  split; [done|]. unfold create. rewrite length_app. simpl. lia.
Qed.

(** X18.  Linking to an existing user changes nothing but the provider id
    and, when the user has none, the avatar: email address, password,
    names, role, verification flag and reset token stay as they are, an
    avatar that is set is kept, and every record with another id is
    stored as before. *)
Theorem linking_keeps_the_rest pr newId p (db : Users.Store) mail u :
  hd_error (emails p) = Some mail -> mail <> "" ->
  findOne mail db = Some u ->
  exists u',
    verifyCallback pr newId p db = (DoneUser u', save u' db) /\
    email u' = email u /\ password u' = password u /\
    firstName u' = firstName u /\ lastName u' = lastName u /\
    role u' = role u /\ isEmailVerified u' = isEmailVerified u /\
    passwordResetToken u' = passwordResetToken u /\
    passwordResetExpires u' = passwordResetExpires u /\
    (truthy (avatar u) = true -> avatar u' = avatar u) /\
    (forall i v, db !! i = Some v -> _id v <> _id u ->
       save u' db !! i = Some v) /\
    length (save u' db) = length db.
Proof.
  intros Hmail Hne Hfind.
  assert (Ht : truthy (Some mail) = true) by (by destruct mail).
  assert (Hothers : forall u' : User, _id u' = _id u ->
            (forall i v, db !! i = Some v -> _id v <> _id u ->
               save u' db !! i = Some v) /\
            length (save u' db) = length db).
  { intros u' Hid. split; [|unfold save; by rewrite length_map].
    intros i v Hi Hv. apply save_lookup_other; [done | by rewrite Hid]. }
  destruct pr; simpl; unfold googleVerify, githubVerify;
    rewrite Hmail, Ht; simpl; rewrite Hfind;
    (eexists; split; [reflexivity|]); simpl;
    repeat (split; [done|]);
    (split; [intros Hav; unfold backfillAvatar; by rewrite Hav|]);
    by apply Hothers.
Qed.

End PassportMore.

(** ** Token refresh and password reset *)

Section SessionFacts.

Import Errors Users Http Jwt Guards Sessions.

(** X19.  A refresh credential issued for a user, presented before its
    expiry while the store holds a record under the user's id and the
    access secret and lifetime are in order, is answered with a new pair:
    both carry the id, email and role of the stored record and are issued
    at the time of the request, so the refresh lifetime starts again. *)
Theorem refresh_reissues_from_store e now0 now u tok (db : Users.Store) u' v :
  generateRefreshToken e now0 u = inr tok ->
  (forall x, expiry tok = Some x -> now < 1000 * x) ->
  findById (_id u) db = Some u' ->
  env_missing (JWT_SECRET e) = false ->
  ms (or_else (JWT_EXPIRES_IN e) "7d") = Some v ->
  exists ca cr w,
    refreshToken e now (Some tok) db
    = NewTokens (Jws ca (JWT_SECRET e)) (Jws cr (JWT_REFRESH_SECRET e)) /\
    payload ca = payloadOf u' /\ payload cr = payloadOf u' /\
    iat ca = now / 1000 /\ iat cr = now / 1000 /\
    exp ca = Some (now / 1000 + v / 1000) /\
    ms (or_else (JWT_REFRESH_EXPIRES_IN e) "30d") = Some w /\
    exp cr = Some (now / 1000 + w / 1000).
Proof.
  intros Hgen Hlive Hfind Hs Hv.
  pose proof Hgen as Hgen'.
  unfold generateRefreshToken in Hgen'.
  destruct (env_missing (JWT_REFRESH_SECRET e)) eqn:Hr; [discriminate|].
  unfold sign, timespan in Hgen'.
  destruct (ms (or_else (JWT_REFRESH_EXPIRES_IN e) "30d")) as [w|] eqn:Hw;
    [|discriminate].
  simpl in Hgen'. injection Hgen' as <-.
  unfold refreshToken, refreshAttempt, verifyRefreshToken.
  rewrite Hr. simpl. rewrite bool_decide_eq_true_2 by done.
  rewrite (live_before_expiry _ now (Hlive _ eq_refl)). simpl.
  rewrite Hfind.
  unfold generateAccessToken, generateRefreshToken, sign, timespan.
  rewrite Hs, Hr, Hv, Hw. simpl.
  rewrite <- (configured_secret _ Hs), <- (configured_secret _ Hr).
  eexists _, _, w. split; [reflexivity|]. done.
Qed.

(** X20.  Past the presence check every failure of [refreshToken] is the
    same 401 "Invalid refresh token": in particular when the user of the
    credential is no longer stored, and whenever the access secret is
    missing, where no refresh can succeed. *)
Theorem refresh_failures_are_uniform e now t (db : Users.Store) :
  t <> Malformed "" ->
  (forall err, refreshToken e now (Some t) db = RefreshThrown err ->
     err = AppError "Invalid refresh token" 401 /\
     errorHandler err = Some (json 401 false "Invalid refresh token")) /\
  (forall c, verifyRefreshToken e now t = inr c ->
     findById (userId (payload c)) db = None ->
     refreshToken e now (Some t) db
     = RefreshThrown (AppError "Invalid refresh token" 401)) /\
  (env_missing (JWT_SECRET e) = true ->
     refreshToken e now (Some t) db
     = RefreshThrown (AppError "Invalid refresh token" 401)).
Proof.
  intros Hne.
  assert (Hbody : refreshToken e now (Some t) db
            = match refreshAttempt e now t db with
              | NewTokens a r => NewTokens a r
              | RefreshThrown _ =>
                  RefreshThrown (AppError "Invalid refresh token" 401)
              end).
  { unfold refreshToken. by destruct t as [[|c0 r0]|c k]. }
  rewrite Hbody. split; [|split].
  - intros err. destruct (refreshAttempt e now t db); [discriminate|].
    by intros [= <-].
  - intros c Hv Hu. unfold refreshAttempt. by rewrite Hv, Hu.
  - intros Hs. unfold refreshAttempt.
    destruct (verifyRefreshToken e now t) as [e1|c]; [done|].
    destruct (findById _ db) as [u|]; [|done].
    unfold generateAccessToken. by rewrite Hs.
Qed.

Section ResetFacts.

Variable sha256 : string -> string.
Variable hashPassword : string -> string.
Variable sendPasswordReset : string -> string -> string -> bool.

Lemma save_save u2 u1 (db : Users.Store) :
  _id u2 = _id u1 -> save u2 (save u1 db) = save u2 db.
Proof.
  intros Hid. unfold save. rewrite map_map. apply map_ext. intros v.
  rewrite Hid. destruct (String.eqb (_id v) (_id u1)) eqn:Hv; simpl.
  - by rewrite String.eqb_refl.
  - by rewrite Hv.
Qed.

Lemma findByResetToken_absent h now (db : Users.Store) :
  Forall (fun v => passwordResetToken v <> Some h) db ->
  findByResetToken h now db = None.
Proof.
  unfold findByResetToken. induction 1 as [|v db Hv _ IH]; simpl; [done|].
  destruct (passwordResetToken v) as [t|]; [|apply IH].
  destruct (passwordResetExpires v) as [x|]; [|apply IH].
  destruct (String.eqb_spec t h) as [->|]; [by destruct Hv | apply IH].
Qed.

Lemma findByResetToken_saved h now x u1 (db : Users.Store) :
  Forall (fun v => passwordResetToken v <> Some h) db ->
  Exists (fun v => _id v = _id u1) db ->
  passwordResetToken u1 = Some h -> passwordResetExpires u1 = Some x ->
  now < x ->
  findByResetToken h now (save u1 db) = Some u1.
Proof.
  intros Hall Hex Ht Hx Hlive. unfold findByResetToken, save.
  induction Hall as [|v db Hv Hall IH]; simpl; [by apply Exists_nil in Hex|].
  destruct (String.eqb_spec (_id v) (_id u1)) as [Hid|Hid].
  - rewrite Ht, Hx, String.eqb_refl. simpl.
    by destruct (Z.ltb_spec now x); [|lia].
  - apply Exists_cons in Hex as [Hex|Hex]; [done|].
    destruct (passwordResetToken v) as [t|]; [|by apply IH].
    destruct (passwordResetExpires v) as [y|]; [|by apply IH].
    destruct (String.eqb_spec t h) as [->|]; [by destruct Hv | by apply IH].
Qed.

Lemma save_keeps_absent h u (db : Users.Store) :
  Forall (fun v => passwordResetToken v <> Some h) db ->
  passwordResetToken u <> Some h ->
  Forall (fun v => passwordResetToken v <> Some h) (save u db).
Proof.
  intros Hall Hu. unfold save. apply Forall_map.
  eapply Forall_impl; [exact Hall|]. intros v Hv. simpl.
  by destruct (String.eqb (_id v) (_id u)).
Qed.

Lemma findByResetToken_expired h now x u1 (db : Users.Store) :
  Forall (fun v => passwordResetToken v <> Some h) db ->
  passwordResetExpires u1 = Some x -> x <= now ->
  findByResetToken h now (save u1 db) = None.
Proof.
  intros Hall Hx Hlate. unfold findByResetToken, save.
  induction Hall as [|v db Hv Hall IH]; simpl; [done|].
  destruct (String.eqb (_id v) (_id u1)).
  - rewrite Hx. destruct (passwordResetToken u1) as [t|]; [|apply IH].
    destruct (Z.ltb_spec now x); [lia|]. rewrite andb_false_r. apply IH.
  - destruct (passwordResetToken v) as [t|]; [|apply IH].
    destruct (passwordResetExpires v) as [y|]; [|apply IH].
    destruct (String.eqb_spec t h) as [->|]; [by destruct Hv | apply IH].
Qed.

Lemma findOne_Exists mail u (db : Users.Store) :
  findOne mail db = Some u -> Exists (fun v => _id v = _id u) db.
Proof.
  unfold findOne. intros H. apply find_some in H as [Hin _].
  apply List.Exists_exists. by exists u.
Qed.

(** The store after a forgot-password request for a stored user: the
    record written back with the token, or written back again without it
    when the mail could not be handed over. *)
Lemma forgotPassword_store e now raw req (db : Users.Store) mail u :
  Controllers.body_email req = Some mail ->
  findOne (Text.toLowerCase mail) db = Some u ->
  (Controllers.forgotPassword sha256 sendPasswordReset e now raw req db).2
  = if sendPasswordReset (email u) (firstName u)
         (Controllers.interpolate (FRONTEND_URL e)
            ++ "/reset-password?token=" ++ raw)
    then save (Controllers.generatePasswordResetToken sha256 now raw u) db
    else save (Controllers.clearPasswordResetToken
                 (Controllers.generatePasswordResetToken sha256 now raw u)) db.
Proof.
  intros Hmail Hfind. unfold Controllers.forgotPassword.
  rewrite Hmail, Hfind. simpl.
  destruct (sendPasswordReset _ _ _); simpl; [done|].
  by rewrite save_save.
Qed.

(** X21.  The link of a forgot-password request works once: when the mail
    was handed over and no stored record held the digest of the token
    before, [resetPassword] with the token accepts it before the hour is
    over, stores the hash of the new password on that user and clears the
    token; the same token is refused afterwards. *)
Theorem reset_link_works_once e now now' now'' raw pw pw' req
    (db : Users.Store) mail u :
  Controllers.body_email req = Some mail ->
  findOne (Text.toLowerCase mail) db = Some u ->
  Forall (fun v => passwordResetToken v <> Some (sha256 raw)) db ->
  (forall a b c, sendPasswordReset a b c = true) ->
  now' < now + 60 * 60 * 1000 ->
  let db1 := (Controllers.forgotPassword sha256 sendPasswordReset e now raw
                req db).2 in
  let r := resetPassword sha256 hashPassword e now' raw pw db1 in
  (forall err, r.1 = ResetThrown err ->
     err <> AppError "Invalid or expired reset token" 400) /\
  (exists u2, findOne (Text.toLowerCase mail) r.2 = Some u2 /\
     _id u2 = _id u /\ password u2 = Some (hashPassword pw) /\
     passwordResetToken u2 = None /\ passwordResetExpires u2 = None) /\
  resetPassword sha256 hashPassword e now'' raw pw' r.2
  = (ResetThrown (AppError "Invalid or expired reset token" 400), r.2).
Proof.
  intros Hmail Hfind Hfree Hsend Hlive db1 r.
  pose proof (findOne_Exists _ _ _ Hfind) as Hex.
  pose proof (findOne_email _ _ _ Hfind) as Hmu.
  set (u1 := Controllers.generatePasswordResetToken sha256 now raw u).
  assert (Hdb1 : db1 = save u1 db).
  { subst db1. rewrite (forgotPassword_store e now raw req db mail u) by done.
    by rewrite Hsend. }
  assert (Hfound : findByResetToken (sha256 raw) now' db1 = Some u1).
  { rewrite Hdb1.
    by apply (findByResetToken_saved _ _ (now + 60 * 60 * 1000)). }
  set (u2 := Controllers.clearPasswordResetToken (withPassword hashPassword pw u1)).
  assert (Hstore : r.2 = save u2 db).
  { subst r. unfold resetPassword. rewrite Hfound. fold u2.
    rewrite Hdb1, save_save by done.
    destruct (generateAccessToken e now' u2); [done|].
    by destruct (generateRefreshToken e now' u2). }
  split; [|split].
  - subst r. unfold resetPassword. rewrite Hfound. fold u2.
    intros err.
    destruct (generateAccessToken e now' u2) as [e1|a] eqn:Ha; simpl.
    + intros [= <-] ->. unfold generateAccessToken in Ha.
      destruct (env_missing _); [discriminate|].
      unfold sign in Ha. by destruct (timespan _ _).
    + destruct (generateRefreshToken e now' u2) as [e2|a2] eqn:Hr; simpl;
        [|discriminate].
      intros [= <-] ->. unfold generateRefreshToken in Hr.
      destruct (env_missing _); [discriminate|].
      unfold sign in Hr. by destruct (timespan _ _).
  - exists u2. rewrite Hstore. split; [|done].
    by apply (findOne_save _ u).
  - rewrite Hstore. unfold resetPassword.
    rewrite findByResetToken_absent; [done|].
    by apply save_keeps_absent.
Qed.

(** X22.  The link is void when the hour is over, and when the mail could
    not be handed over: [resetPassword] refuses the token with the 400
    and stores nothing. *)
Theorem reset_link_void e now now' raw pw req (db : Users.Store) mail u :
  Controllers.body_email req = Some mail ->
  findOne (Text.toLowerCase mail) db = Some u ->
  Forall (fun v => passwordResetToken v <> Some (sha256 raw)) db ->
  now + 60 * 60 * 1000 <= now' \/
    (forall a b c, sendPasswordReset a b c = false) ->
  let db1 := (Controllers.forgotPassword sha256 sendPasswordReset e now raw
                req db).2 in
  resetPassword sha256 hashPassword e now' raw pw db1
  = (ResetThrown (AppError "Invalid or expired reset token" 400), db1).
Proof.
  intros Hmail Hfind Hfree Hcase db1.
  assert (Hnone : findByResetToken (sha256 raw) now' db1 = None).
  { subst db1. rewrite (forgotPassword_store e now raw req db mail u) by done.
    destruct (sendPasswordReset _ _ _) eqn:Hsend.
    - destruct Hcase as [Hlate|Hdown]; [|by rewrite Hdown in Hsend].
      by apply (findByResetToken_expired _ _ (now + 60 * 60 * 1000)).
    - apply findByResetToken_absent. by apply save_keeps_absent. }
  unfold resetPassword. by rewrite Hnone.
Qed.

End ResetFacts.

End SessionFacts.

(** ** More on login and the block check *)

Section LoginMore.

Import Errors Users Http Controllers.

Variable comparePassword : User -> string -> option bool.

(** Only a failed credential check touches the abuse tracker. *)
Lemma login_store e now fp req (db : Users.Store) (s : AbuseTracker.Store) :
  (login comparePassword e now fp req db s).2
  = if credentialsFail comparePassword req db
    then (AbuseTracker.run e (failureCalls [(now, fp, req)]) s).2
    else s.
Proof.
  unfold credentialsFail, login. simpl.
  destruct (body_email req) as [mail|]; [|done]. simpl.
  destruct (findOne _ db) as [u|]; [|done].
  destruct (comparePassword u _) as [[|]|]; done.
Qed.

Lemma logins_store e attempts (db : Users.Store) :
  forall (s : AbuseTracker.Store),
  (logins comparePassword e attempts db s).2
  = (AbuseTracker.run e
       (failureCalls
          (List.filter (fun a => credentialsFail comparePassword a.2 db)
             attempts)) s).2.
Proof.
  induction attempts as [|[[now fp] req] rest IH]; intros s; [done|].
  cbn [logins List.filter].
  pose proof (login_store e now fp req db s) as Hone.
  destruct (login comparePassword e now fp req db s) as [o s1].
  simpl in Hone. specialize (IH s1).
  destruct (logins comparePassword e rest db s1) as [os s2]. simpl in *.
  rewrite IH, Hone.
  by destruct (credentialsFail comparePassword req db).
Qed.

(** X23.  A login whose credentials are accepted leaves the abuse tracker
    as it is, failures counted so far included; the user gets the 200 with
    a pair of credentials when the email address is verified, and the 401
    asking to verify it otherwise. *)
Theorem accepted_login_keeps_failure_counts
    e now fp req (db : Users.Store) (s : AbuseTracker.Store) mail u :
  body_email req = Some mail ->
  findOne (Text.trim (Text.toLowerCase mail)) db = Some u ->
  comparePassword u (body_password req) = Some true ->
  (login comparePassword e now fp req db s).2 = s /\
  (isEmailVerified u = false ->
     respond (login comparePassword e now fp req db s).1
     = Some (json 401 false "Please verify your email before logging in. Check your inbox for a verification link.")) /\
  (isEmailVerified u = true ->
     forall a r, Jwt.generateAccessToken e now u = inr a ->
                 Jwt.generateRefreshToken e now u = inr r ->
     (login comparePassword e now fp req db s).1
     = Sent {| status := 200; success := true;
               body_message := "Login successful"; retryAfter := None;
               data := Some {| data_user := viewOf u; accessToken := a;
                               refreshToken := r;
                               sessionFingerprint := fp |} |}).
Proof.
  intros Hmail Hfind Hok. unfold login. rewrite Hmail. simpl.
  rewrite Hfind, Hok. split; [done|]. unfold loginAccepted. split.
  - by intros ->.
  - intros -> a r -> ->. done.
Qed.


Lemma failureCalls_app l1 l2 :
  failureCalls (l1 ++ l2)%list = (failureCalls l1 ++ failureCalls l2)%list.
Proof.
  induction l1 as [|[[now fp] req] l1 IH]; [done|]. simpl. by rewrite IH.
Qed.

Lemma failureCalls_checked id bu attempts :
  AbuseTracker.checked_by id bu (failureCalls attempts) = true.
Proof. induction attempts as [|[[now fp] req] rest IH]; [done|]. exact IH. Qed.

Lemma prefix_append p m : String.prefix p (p ++ m) = true.
Proof.
  induction p as [|a p IH]; simpl; [by destruct m|].
  by destruct (ascii_dec a a).
Qed.

Lemma email_key_differs addr m :
  Text.startsWith "email:" addr = false -> "email:" ++ m <> addr.
Proof.
  intros H <-. unfold Text.startsWith in H. by rewrite prefix_append in H.
Qed.

(** Failed logins from one address, which is no email key, record exactly
    one failure each for that address. *)
Lemma failureCalls_exact addr attempts :
  Text.startsWith "email:" addr = false ->
  Forall (fun a => or_else (ip a.2) "unknown" = addr) attempts ->
  AbuseTracker.failures addr (failureCalls attempts) = length attempts.
Proof.
  intros Hk. induction attempts as [|[[now fp] req] rest IH]; intros Hall; [done|].
  apply Forall_cons in Hall as [Hip Hall]. simpl in *.
  rewrite Hip, (IH Hall).
  destruct (decide (_ = addr)) as [He|_];
    [by apply email_key_differs in He|].
  by destruct (decide (addr = addr)).
Qed.

(** Failed logins never move a deadline that an address or an account
    already has, whether it has passed or not. *)
Lemma failed_logins_keep_deadline e attempts (db : Users.Store)
    (s : AbuseTracker.Store) id bu :
  AbuseTracker.blocked_until id bu s ->
  AbuseTracker.blocked_until id bu (logins comparePassword e attempts db s).2.
Proof.
  intros Hb. rewrite logins_store.
  by apply run_stays_blocked; [|apply failureCalls_checked].
Qed.

(** X24.  Failures add up across logins that succeed in between.  Take a
    sequence of logins from one address (a text that is no email key)
    whose record is not marked blocked and counts [c] failures, and in it
    a failed login, made at clock value [now], that is failure number
    [threshold - c] of the sequence, with whatever accepted logins in
    between.  Then, whatever logins follow, the address is blocked with
    the deadline [now + lockoutDuration], and [isBlocked] answers [true]
    for it at every clock value up to that deadline. *)
Theorem failures_add_up_across_successes
    e pre now fp req post (db : Users.Store) (s : AbuseTracker.Store) addr c :
  Forall (fun a => or_else (ip a.2) "unknown" = addr) pre ->
  or_else (ip req) "unknown" = addr ->
  Text.startsWith "email:" addr = false ->
  Maintenance.unblocked addr c s ->
  credentialsFail comparePassword req db = true ->
  c + Z.of_nat (length (List.filter
                          (fun a => credentialsFail comparePassword a.2 db)
                          pre)) + 1
  = AbuseTracker.threshold e ->
  let s' := (logins comparePassword e (pre ++ (now, fp, req) :: post)%list
               db s).2 in
  AbuseTracker.blocked_until addr (now + AbuseTracker.lockoutDuration e) s' /\
  forall t, t <= now + AbuseTracker.lockoutDuration e ->
    AbuseTracker.isBlocked t addr s' = (true, s').
Proof.
  intros Hpre Hip Hk Hu Hfail Hthr s'.
  assert (Hb : AbuseTracker.blocked_until addr
                 (now + AbuseTracker.lockoutDuration e) s').
  { subst s'. rewrite logins_store, List.filter_app. cbn [List.filter].
    change (credentialsFail comparePassword (now, fp, req).2 db)
      with (credentialsFail comparePassword req db).
    rewrite Hfail.
    set (failed := List.filter _ pre) in *.
    set (later := List.filter _ post).
    assert (Hipf : Forall (fun a => or_else (ip a.2) "unknown" = addr) failed).
    { apply List.Forall_forall. intros a Ha. apply filter_In in Ha as [Ha _].
      revert a Ha. by apply List.Forall_forall. }
    rewrite failureCalls_app, run_append. cbn [snd].
    pose proof (run_keeps_unblocked e addr (failureCalls failed) c s Hu) as Hu1.
    rewrite (failureCalls_exact addr failed Hk Hipf) in Hu1.
    specialize (Hu1 ltac:(lia)).
    set (s1 := (AbuseTracker.run e (failureCalls failed) s).2) in *.
    cbn [failureCalls AbuseTracker.run]. rewrite Hip.
    apply run_stays_blocked; [|apply failureCalls_checked].
    set (key := ("email:" ++ _)%string).
    pose proof (unblocked_other_track e now addr key _ s1
                  (email_key_differs addr _ Hk) Hu1) as Hu2.
    set (s2 := AbuseTracker.trackSuspiciousActivity e now key "failed_login" s1)
      in *.
    exists (AbuseTracker.bumped e now (s2 !! addr)). rewrite track_same.
    split; [done|].
    unfold Maintenance.unblocked in Hu2. unfold AbuseTracker.bumped.
    destruct (s2 !! addr) as [a|]; simpl.
    - destruct Hu2 as [Hbl Hc]. rewrite Hbl.
      destruct (Z.leb_spec (AbuseTracker.threshold e) (AbuseTracker.count a + 1));
        [done | lia].
    - destruct (Z.leb_spec (AbuseTracker.threshold e) (0 + 1)); [done | lia]. }
  split; [exact Hb|]. intros t Ht. by eapply isBlocked_before.
Qed.


End LoginMore.

(** ** More on the sanitizer *)

Section SanitizerMore.

Import Sanitizer Members.

Lemma own_replace_same k v o :
  has_property k o = true -> own_property k (replace_property k v o) = Some v.
Proof.
  unfold own_property, has_property.
  induction o as [|[k' v'] o IH]; simpl; [discriminate|].
  destruct (String.eqb_spec k' k) as [->|Hne]; simpl.
  - by rewrite String.eqb_refl.
  - intros H. destruct (String.eqb_spec k' k); [done | by apply IH].
Qed.

Lemma own_replace_other k k0 v o :
  k0 <> k -> own_property k0 (replace_property k v o) = own_property k0 o.
Proof.
  intros Hne. unfold own_property.
  induction o as [|[k' v'] o IH]; simpl; [done|].
  destruct (String.eqb_spec k' k) as [->|Hk]; simpl.
  - destruct (String.eqb_spec k k0); [by subst | done].
  - destruct (String.eqb k' k0); [done | apply IH].
Qed.

Lemma own_append_fresh k v o :
  has_property k o = false -> own_property k (o ++ [(k, v)])%list = Some v.
Proof.
  unfold own_property, has_property.
  induction o as [|[k' v'] o IH]; simpl.
  - by rewrite String.eqb_refl.
  - destruct (String.eqb k' k); [discriminate | apply IH].
Qed.

Lemma own_append_other k k0 v o :
  k0 <> k -> own_property k0 (o ++ [(k, v)])%list = own_property k0 o.
Proof.
  intros Hne. unfold own_property.
  induction o as [|[k' v'] o IH]; simpl.
  - by destruct (String.eqb_spec k k0); [subst|].
  - destruct (String.eqb k' k0); [done | apply IH].
Qed.

(** An assignment to a name other than [__proto__] makes or overwrites the
    own property of that name, whatever the prototype is. *)
Lemma own_set_same k v o :
  k <> "__proto__" -> own_property k (set_property k v o).2 = Some v.
Proof.
  intros Hk. destruct o as [p own]. unfold set_property.
  destruct (has_property k own) eqn:Hh; [by apply own_replace_same|].
  destruct (String.eqb_spec k "__proto__"); [done|]. simpl.
  by apply own_append_fresh.
Qed.

Lemma own_set_other k k0 v o :
  k0 <> k -> own_property k0 (set_property k v o).2 = own_property k0 o.2.
Proof.
  intros Hne. destruct o as [p own]. unfold set_property.
  destruct (has_property k own); [by apply own_replace_other|].
  destruct (String.eqb k "__proto__" && inherits_accessor p); [done|].
  by apply own_append_other.
Qed.

Lemma own_sanitizeEntries f k fs : forall acc,
  k <> "" -> k <> "__proto__" ->
  own_property k (sanitizeEntries f fs acc).2
  = match last_cleaned k fs with
    | Some v => Some (f v)
    | None => own_property k acc.2
    end.
Proof.
  induction fs as [|[key v] fs IH]; intros acc Hk Hp; simpl; [done|].
  rewrite IH by done.
  destruct (last_cleaned k fs) as [w|]; [done|].
  destruct (cleanKey key) as [|c r] eqn:Hc.
  - by destruct (String.eqb_spec "" k).
  - destruct (String.eqb_spec (String c r) k) as [<-|Hne].
    + by apply own_set_same.
    + by apply own_set_other.
Qed.

(** X26.  When several entries of an object are cleaned to the same key,
    the last one wins: for a key other than the empty one and
    [__proto__], the own property of that name of the sanitized object
    holds the sanitized value of the last entry, in the order of
    [Object.entries], whose cleaned key it is; the sanitized object has no
    own property of that name when there is no such entry. *)
Theorem sanitized_member_is_last_cleaned k fields p own :
  k <> "" -> k <> "__proto__" ->
  sanitizeObject (JObject fields) = VObject p own ->
  own_property k own = sanitizeObject <$> last_cleaned k fields.
Proof.
  intros Hk Hp. cbn [sanitizeObject]. intros [= _ <-].
  rewrite own_sanitizeEntries by done.
  by destruct (last_cleaned k fields).
Qed.

Lemma sanitizeEntries_app f fs gs : forall acc,
  sanitizeEntries f (fs ++ gs)%list acc
  = sanitizeEntries f gs (sanitizeEntries f fs acc).
Proof.
  induction fs as [|[key v] fs IH]; intros acc; [done|]. simpl. apply IH.
Qed.

Lemma has_property_replace k0 k v o :
  has_property k0 (replace_property k v o) = has_property k0 o.
Proof.
  unfold has_property. induction o as [|[k' v'] o IH]; simpl; [done|].
  destruct (String.eqb k' k); simpl; [done | by rewrite IH].
Qed.

(** An assignment to a name other than [__proto__] leaves the prototype
    alone and does the same to the own properties under every prototype. *)
Lemma set_property_plain k v p own :
  k <> "__proto__" ->
  set_property k v (p, own)
  = (p, if has_property k own then replace_property k v own
        else (own ++ [(k, v)])%list).
Proof.
  intros Hk. unfold set_property.
  destruct (has_property k own); [done|].
  by destruct (String.eqb_spec k "__proto__").
Qed.

Lemma sanitizeEntries_plain f fs : forall p own,
  none_cleaned "__proto__" fs = true ->
  sanitizeEntries f fs (p, own)
  = (p, (sanitizeEntries f fs (ObjectPrototype, own)).2) /\
  has_property "__proto__" (sanitizeEntries f fs (p, own)).2
  = has_property "__proto__" own.
Proof.
  induction fs as [|[key v] fs IH]; intros p own Hn; [done|].
  simpl in Hn. apply andb_true_iff in Hn as [Hk Hn].
  apply negb_true_iff in Hk. cbn [sanitizeEntries].
  destruct (cleanKey key) as [|c r] eqn:Hc; [by apply IH|].
  assert (Hne : String c r <> "__proto__").
  { intros Heq. by rewrite Heq in Hk. }
  rewrite !set_property_plain by done.
  destruct (IH p (if has_property (String c r) own
                  then replace_property (String c r) (f v) own
                  else (own ++ [(String c r, f v)])%list) Hn) as [H1 H2].
  split; [exact H1|]. rewrite H2.
  destruct (has_property (String c r) own).
  - apply has_property_replace.
  - unfold has_property. rewrite existsb_app. cbn [existsb fst].
    rewrite Hk. by rewrite !orb_false_r.
Qed.

(** X27.  A member whose key is cleaned to [__proto__] is not stopped and
    makes no own property of an object none of whose other keys is cleaned
    to that name: the assignment reaches the setter of [Object.prototype]
    and sets the prototype of the sanitized object, to the sanitized value
    of the member when that is an object or an array and to [null] when it
    is [null]; any other value is dropped.  The own properties are those
    that the other members give.  Once the prototype is [null], a further
    member cleaned to [__proto__] becomes an own property of that name. *)
Theorem proto_member_sets_prototype fs gs key v key' v' :
  none_cleaned "__proto__" (fs ++ gs)%list = true ->
  cleanKey key = "__proto__" -> cleanKey key' = "__proto__" ->
  exists own,
    sanitizeObject (JObject (fs ++ gs)%list) = VObject ObjectPrototype own /\
    own_property "__proto__" own = None /\
    sanitizeObject (JObject (fs ++ (key, v) :: gs)%list)
    = VObject (prototype_for (sanitizeObject v)) own /\
    sanitizeObject (JObject (fs ++ gs ++ [(key, JNull); (key', v')])%list)
    = VObject NullPrototype (own ++ [("__proto__", sanitizeObject v')])%list.
Proof.
  intros Hn Hkey Hkey'.
  pose proof Hn as Hn'. unfold none_cleaned in Hn'.
  rewrite forallb_app in Hn'. apply andb_true_iff in Hn' as [Hfs Hgs].
  fold (none_cleaned "__proto__" fs) in Hfs.
  fold (none_cleaned "__proto__" gs) in Hgs.
  destruct (sanitizeEntries_plain sanitizeObject (fs ++ gs)%list
              ObjectPrototype [] Hn) as [Hall Hhas].
  set (own := (sanitizeEntries sanitizeObject (fs ++ gs)%list
                 (ObjectPrototype, [])).2) in *.
  assert (Hown : has_property "__proto__" own = false) by exact Hhas.
  exists own. split; [|split; [|split]].
  - cbn [sanitizeObject]. by rewrite Hall.
  - unfold own_property. unfold has_property in Hown.
    clear -Hown. induction own as [|[k x] own IH]; simpl in *; [done|].
    apply orb_false_iff in Hown as [Hk Hrest]. rewrite Hk. by apply IH.
  - cbn [sanitizeObject]. rewrite sanitizeEntries_app. cbn [sanitizeEntries].
    rewrite Hkey.
    destruct (sanitizeEntries_plain sanitizeObject fs ObjectPrototype [] Hfs)
      as [Hfs1 Hfs2].
    rewrite Hfs1.
    set (own1 := (sanitizeEntries sanitizeObject fs (ObjectPrototype, [])).2)
      in *.
    assert (Hset : set_property "__proto__" (sanitizeObject v)
                     (ObjectPrototype, own1)
                   = (prototype_for (sanitizeObject v), own1)).
    { unfold set_property. rewrite Hfs2. simpl.
      by destruct (sanitizeObject v). }
    rewrite Hset.
    destruct (sanitizeEntries_plain sanitizeObject gs
                (prototype_for (sanitizeObject v)) own1 Hgs) as [Hgs1 _].
    rewrite Hgs1. cbn [fst snd]. f_equal.
    subst own own1. rewrite sanitizeEntries_app.
    destruct (sanitizeEntries_plain sanitizeObject fs ObjectPrototype [] Hfs)
      as [-> _].
    reflexivity.
  - cbn [sanitizeObject]. rewrite app_assoc, sanitizeEntries_app.
    rewrite Hall. cbn [sanitizeEntries]. rewrite Hkey, Hkey'.
    assert (H1 : set_property "__proto__" (sanitizeObject JNull)
                   (ObjectPrototype, own) = (NullPrototype, own)).
    { unfold set_property. by rewrite Hown. }
    assert (H2 : set_property "__proto__" (sanitizeObject v')
                   (NullPrototype, own)
                 = (NullPrototype,
                    (own ++ [("__proto__", sanitizeObject v')])%list)).
    { unfold set_property. by rewrite Hown. }
    by rewrite H1, H2.
Qed.

End SanitizerMore.

(** ** The upload check *)

Section UploadFacts.

Import Errors Http Uploads.

Lemma includes_char_lacks c name :
  Text.includes (String c EmptyString) name = false ->
  Fallbacks.lacks c name = true.
Proof.
  unfold Fallbacks.lacks. induction name as [|b name IH]; [done|].
  rewrite includes_cons. simpl.
  destruct (ascii_dec c b) as [->|Hne]; [by destruct name|].
  intros H. rewrite IH by (by destruct name).
  rewrite andb_true_r. apply negb_true_iff, Ascii.eqb_neq. congruence.
Qed.

Lemma checkFile_passes env f : checkFile env f = None -> acceptable env f.
Proof.
  unfold checkFile, acceptable. intros H.
  destruct (match size f with Some n => _ | None => _ end) eqn:Hs;
    [discriminate|].
  destruct (Passport.truthy (mimetype f) && _) eqn:Hm; [discriminate|].
  destruct (Passport.truthy (originalname f) && _) eqn:Ho; [discriminate|].
  clear H. split; [|split].
  - intros n Hn. rewrite Hn in Hs. by apply Z.ltb_ge in Hs.
  - intros t Ht Hne. rewrite Ht in Hm.
    assert (Htr : Passport.truthy (Some t) = true) by (by destruct t).
    rewrite Htr in Hm. cbn [andb Passport.or_empty] in Hm.
    apply negb_false_iff in Hm.
    apply existsb_exists in Hm as (x & Hx & Heq).
    apply String.eqb_eq in Heq. by subst.
  - intros name Hname. rewrite Hname in Ho.
    destruct name as [|c r]; [done|].
    cbn [Passport.truthy Passport.or_empty andb] in Ho.
    apply orb_false_iff in Ho as [Ho Hback].
    apply orb_false_iff in Ho as [Hdots Hslash].
    split; [by apply includes_char_lacks|].
    split; [by apply includes_char_lacks | done].
Qed.

(** X28.  When [validateFileUpload] lets a request pass, the single file
    and every file of the array are acceptable: within the size limit, of
    an allowed type when they name one, and with a name free of slash,
    backslash and "..".  A dictionary of fields, as multer builds it for
    several fields, is let pass without any file being looked at, unless a
    field is called [mimetype]. *)
Theorem upload_check_sound env file files :
  validateFileUpload env file files = None ->
  (forall f, file = Some f -> acceptable env f) /\
  (forall entries f, files = FileArray entries -> In (Some f) entries ->
     acceptable env f) /\
  (forall names, files = FileFields names ->
     List.existsb (String.eqb "mimetype") names = false).
Proof.
  unfold validateFileUpload.
  assert (Hall : forall l, checkAll env l = None ->
            (forall f, In (AFile f) l -> acceptable env f) /\
            (forall names, In (Dictionary names) l ->
               List.existsb (String.eqb "mimetype") names = false)).
  { induction l as [|[f| |names] l IH]; simpl.
    - intros _. split; intros ? [].
    - destruct (checkFile env f) eqn:Hf; [discriminate|]. intros Hl.
      destruct (IH Hl) as [H1 H2]. split.
      + intros f0 [[= <-]|Hin]; [by apply checkFile_passes | by apply H1].
      + intros names [?|Hin]; [done | by apply H2].
    - intros Hl. destruct (IH Hl) as [H1 H2]. split.
      + intros f0 [?|Hin]; [done | by apply H1].
      + intros names [?|Hin]; [done | by apply H2].
    - destruct (List.existsb _ names) eqn:Hn; [discriminate|]. intros Hl.
      destruct (IH Hl) as [H1 H2]. split.
      + intros f0 [?|Hin]; [done | by apply H1].
      + intros names0 [[= <-]|Hin]; [done | by apply H2]. }
  intros Hpass. destruct (Hall _ Hpass) as [Hfiles Hdict].
  unfold pushed in Hfiles, Hdict. split; [|split].
  - intros f ->. apply Hfiles. apply in_or_app. right. by left.
  - intros entries f -> Hin. apply Hfiles. apply in_or_app. left.
    apply in_map_iff. by exists (Some f).
  - intros names ->. apply Hdict. apply in_or_app. left. by left.
Qed.

End UploadFacts.

(** ** The theorems above at sample values *)

Lemma below_threshold_never_blocked_witness :
  Maintenance.unblocked "9.9.9.9" (0 + Z.of_nat 2)
    (AbuseTracker.run Sample.env
       [AbuseTracker.Track "9.9.9.9" 1; AbuseTracker.Ask "9.9.9.9" 2;
        AbuseTracker.Track "9.9.9.9" 3] ∅).2.
Proof.
  apply (below_threshold_never_blocked Sample.env "9.9.9.9"
           [AbuseTracker.Track "9.9.9.9" 1; AbuseTracker.Ask "9.9.9.9" 2;
            AbuseTracker.Track "9.9.9.9" 3] 0 ∅).
  - reflexivity.
  - unfold AbuseTracker.threshold. simpl. lia.
Defined.

Lemma deadline_from_threshold_failure_witness :
  AbuseTracker.blocked_until "9.9.9.9" (5000 + 900000)
    (AbuseTracker.run Sample.env
       ([AbuseTracker.Track "9.9.9.9" 1000; AbuseTracker.Track "9.9.9.9" 2000;
         AbuseTracker.Track "9.9.9.9" 3000; AbuseTracker.Track "9.9.9.9" 4000]
        ++ AbuseTracker.Track "9.9.9.9" 5000
        :: [AbuseTracker.Ask "9.9.9.9" 6000; AbuseTracker.Track "9.9.9.9" 7000])%list
       ∅).2.
Proof.
  apply (deadline_from_threshold_failure Sample.env "9.9.9.9"
           [AbuseTracker.Track "9.9.9.9" 1000; AbuseTracker.Track "9.9.9.9" 2000;
            AbuseTracker.Track "9.9.9.9" 3000; AbuseTracker.Track "9.9.9.9" 4000]
           5000
           [AbuseTracker.Ask "9.9.9.9" 6000; AbuseTracker.Track "9.9.9.9" 7000]
           0 ∅).
  - reflexivity.
  - reflexivity.
  - reflexivity.
Defined.

Lemma unblocked_stays_unblocked_witness :
  AbuseTracker.isBlocked 905002 "1.2.3.4"
    (AbuseTracker.isBlocked 905001 "1.2.3.4"
       (AbuseTracker.run Sample.env Sample.five_failures ∅).2).2
  = (false,
     (AbuseTracker.isBlocked 905001 "1.2.3.4"
        (AbuseTracker.run Sample.env Sample.five_failures ∅).2).2).
Proof.
  apply (unblocked_stays_unblocked 905001 905002 "1.2.3.4"
           (AbuseTracker.run Sample.env Sample.five_failures ∅).2).
  vm_compute. reflexivity.
Defined.

Lemma refresh_token_round_trip_witness :
  exists c, Jwt.verifyRefreshToken Sample.env 1700000600000
              Scenario.refresh_token = inr c /\
            Jwt.payload c = Jwt.payloadOf Sample.alice.
Proof.
  destruct (refresh_token_round_trip Sample.env 1700000000123 1700000600000
              Sample.alice Scenario.refresh_token eq_refl)
    as [(c & Hc & Hp & _) _].
  - intros x [= <-]. vm_compute. reflexivity.
  - exists c. by split.
Defined.

Lemma issued_token_expires_witness :
  exists x, Jwt.expiry Scenario.access_token = Some x /\
    forall now', 1000 * x <= now' ->
      Jwt.verifyAccessToken Sample.env now' Scenario.access_token
      = inl (Errors.mkError "Invalid access token").
Proof.
  apply (issued_token_expires Sample.env 1700000000123 Sample.alice
           Scenario.access_token).
  reflexivity.
Defined.

Lemma access_token_as_refresh_token_witness :
  Jwt.verifyRefreshToken Sample.env 1700000600000 Scenario.access_token
  = inl (Errors.mkError "Invalid refresh token").
Proof.
  apply (access_token_as_refresh_token Sample.env 1700000000123 1700000600000
           Sample.alice Scenario.access_token).
  - reflexivity.
  - reflexivity.
  - intros x [= <-]. vm_compute. reflexivity.
  - discriminate.
Defined.

Lemma errorHandler_keeps_AppError_witness :
  Http.errorHandler (Errors.AppError "Invalid email or password" 401)
  = Some (Http.json 401 false "Invalid email or password").
Proof.
  apply (errorHandler_keeps_AppError "Invalid email or password" 401).
  - discriminate.
  - discriminate.
  - reflexivity.
Defined.

Lemma authenticate_round_trip_witness :
  Guards.authenticateJWT Sample.env 1700000600000 Sample.db
    (Some (Guards.Bearer Scenario.access_token))
  = inr (Guards.withoutPassword Sample.alice).
Proof.
  apply (authenticate_round_trip Sample.env 1700000000123 1700000600000
           Sample.alice Scenario.access_token Sample.db Sample.alice).
  - reflexivity.
  - intros x [= <-]. vm_compute. reflexivity.
  - reflexivity.
Defined.

Lemma role_read_from_store_witness :
  Guards.roleGuarded ["admin"] Sample.env 1700000600000 Sample.db
    (Some (Guards.Bearer Scenario.access_token))
  = Some (Http.json 403 false "Access denied. Insufficient permissions.").
Proof.
  apply (role_read_from_store ["admin"] Sample.env 1700000000123
           1700000600000 Sample.alice Scenario.access_token Sample.db
           Sample.alice).
  - reflexivity.
  - intros x [= <-]. vm_compute. reflexivity.
  - reflexivity.
Defined.

Lemma linked_unverified_user_is_refused_witness :
  Guards.logoutRoute Sample.env 1700000600000 [Scenario.alice_linked]
    (Some (Guards.Bearer Scenario.access_token))
  = Http.json 403 false "Email verification required".
Proof.
  apply (linked_unverified_user_is_refused Passport.Google "u2" Sample.profile
           Sample.db "a@b.com" Sample.alice Sample.env 1700000000123
           1700000600000 eq_refl ltac:(discriminate) eq_refl eq_refl eq_refl
           Scenario.alice_linked [Scenario.alice_linked]
           Scenario.access_token eq_refl eq_refl).
  intros x [= <-]. vm_compute. reflexivity.
Defined.

Lemma first_login_creates_account_witness :
  exists u,
    Passport.verifyCallback Passport.Google "u2" Sample.stranger Sample.db
    = (Passport.DoneUser u, (Sample.db ++ [u])%list) /\
    Users.isEmailVerified u = true /\ Users.password u = None.
Proof.
  destruct (first_login_creates_account Passport.Google "u2" Sample.stranger
              Sample.db "c@d.com" eq_refl ltac:(discriminate) eq_refl)
    as (u & H1 & _ & _ & _ & H5 & _ & H7 & _).
  exists u. by repeat split.
Defined.

Lemma second_login_reuses_account_witness :
  Passport.verifyCallback Passport.Google "u3" Sample.stranger
    [Sample.alice; Scenario.carol]
  = (Passport.DoneUser Scenario.carol, [Sample.alice; Scenario.carol]).
Proof.
  apply (second_login_reuses_account Passport.Google "u2" "u3" Sample.stranger
           Sample.db "c@d.com" eq_refl ltac:(discriminate) eq_refl).
  - repeat constructor. discriminate.
  - reflexivity.
Defined.

Lemma linking_keeps_the_rest_witness :
  exists u',
    Passport.verifyCallback Passport.GitHub "u2" Sample.profile Sample.db
    = (Passport.DoneUser u', Users.save u' Sample.db) /\
    Users.password u' = Users.password Sample.alice /\
    Users.role u' = Users.role Sample.alice.
Proof.
  destruct (linking_keeps_the_rest Passport.GitHub "u2" Sample.profile
              Sample.db "a@b.com" Sample.alice eq_refl ltac:(discriminate)
              eq_refl)
    as (u' & H1 & _ & H3 & _ & _ & H6 & _).
  exists u'. by repeat split.
Defined.

Lemma refresh_reissues_from_store_witness :
  exists ca cr,
    Sessions.refreshToken Sample.env 1700000600000
      (Some Scenario.refresh_token) Sample.db
    = Sessions.NewTokens (Jwt.Jws ca (Some "access-secret"))
                         (Jwt.Jws cr (Some "refresh-secret")) /\
    Jwt.iat cr = 1700000600 /\
    Jwt.exp cr = Some (1700000600 + 2592000).
Proof.
  destruct (refresh_reissues_from_store Sample.env 1700000000123
              1700000600000 Sample.alice Scenario.refresh_token Sample.db
              Sample.alice 604800000 eq_refl)
    as (ca & cr & w & H1 & _ & _ & _ & H5 & _ & H7 & H8).
  - intros x [= <-]. vm_compute. reflexivity.
  - reflexivity.
  - reflexivity.
  - reflexivity.
  - exists ca, cr. split; [exact H1|]. split; [exact H5|].
    rewrite H8. injection H7 as <-. reflexivity.
Defined.

Lemma refresh_failures_are_uniform_witness :
  Sessions.refreshToken Sample.env 1700000600000
    (Some Scenario.refresh_token) []
  = Sessions.RefreshThrown (Errors.AppError "Invalid refresh token" 401).
Proof.
  destruct (refresh_failures_are_uniform Sample.env 1700000600000
              Scenario.refresh_token [] ltac:(discriminate)) as (_ & H & _).
  apply (H {| Jwt.payload := Jwt.payloadOf Sample.alice;
              Jwt.iat := 1700000000;
              Jwt.exp := Some (1700000000 + 2592000) |});
    reflexivity.
Defined.

Lemma reset_link_works_once_witness :
  let db1 := (Controllers.forgotPassword Sample.sha256 Sample.mail_up
                Sample.env 1000 "r4nd0m" (Sample.attempt "a@b.com")
                Sample.db).2 in
  let r := Sessions.resetPassword Sample.sha256 Scenario.bcrypt Sample.env
             2000 "r4nd0m" "N3w!Passw0rd" db1 in
  Sessions.resetPassword Sample.sha256 Scenario.bcrypt Sample.env 3000
    "r4nd0m" "0ther!Passw0rd" r.2
  = (Sessions.ResetThrown
       (Errors.AppError "Invalid or expired reset token" 400), r.2).
Proof.
  apply (reset_link_works_once Sample.sha256 Scenario.bcrypt Sample.mail_up
           Sample.env 1000 2000 3000 "r4nd0m" "N3w!Passw0rd" "0ther!Passw0rd"
           (Sample.attempt "a@b.com") Sample.db "a@b.com" Sample.alice).
  - reflexivity.
  - reflexivity.
  - repeat constructor. discriminate.
  - reflexivity.
  - lia.
Defined.

Lemma reset_link_void_witness :
  let db1 := (Controllers.forgotPassword Sample.sha256 Sample.mail_down
                Sample.env 1000 "r4nd0m" (Sample.attempt "a@b.com")
                Sample.db).2 in
  Sessions.resetPassword Sample.sha256 Scenario.bcrypt Sample.env 2000
    "r4nd0m" "N3w!Passw0rd" db1
  = (Sessions.ResetThrown
       (Errors.AppError "Invalid or expired reset token" 400), db1).
Proof.
  apply (reset_link_void Sample.sha256 Scenario.bcrypt Sample.mail_down
           Sample.env 1000 2000 "r4nd0m" "N3w!Passw0rd"
           (Sample.attempt "a@b.com") Sample.db "a@b.com" Sample.alice).
  - reflexivity.
  - reflexivity.
  - repeat constructor. discriminate.
  - right. reflexivity.
Defined.

Lemma accepted_login_keeps_failure_counts_witness :
  (Controllers.login Sample.comparePassword Sample.env 6000 "f6"
     Scenario.good_attempt Sample.db
     (AbuseTracker.run Sample.env Sample.five_failures ∅).2).2
  = (AbuseTracker.run Sample.env Sample.five_failures ∅).2.
Proof.
  apply (accepted_login_keeps_failure_counts Sample.comparePassword
           Sample.env 6000 "f6" Scenario.good_attempt Sample.db
           (AbuseTracker.run Sample.env Sample.five_failures ∅).2
           "a@b.com" Sample.alice); reflexivity.
Defined.

Lemma failures_add_up_across_successes_witness :
  let s' := (Controllers.logins Sample.comparePassword Sample.env
               Scenario.mixed_attempts Sample.db ∅).2 in
  AbuseTracker.blocked_until "1.2.3.4" (5000 + 900000) s' /\
  forall t, t <= 5000 + 900000 ->
    AbuseTracker.isBlocked t "1.2.3.4" s' = (true, s').
Proof.
  apply (failures_add_up_across_successes Sample.comparePassword Sample.env
           (firstn 5 Scenario.mixed_attempts) 5000 "f5"
           (Sample.attempt "a@b.com") [] Sample.db ∅ "1.2.3.4" 0).
  - repeat (constructor; [reflexivity|]). constructor.
  - reflexivity.
  - reflexivity.
  - reflexivity.
  - reflexivity.
  - reflexivity.
Defined.


Lemma sanitized_member_is_last_cleaned_witness :
  Members.own_property "ab" [("ab", Sanitizer.VString "second")]
  = Some (Sanitizer.VString "second").
Proof.
  rewrite (sanitized_member_is_last_cleaned "ab" Scenario.colliding
             Sanitizer.ObjectPrototype [("ab", Sanitizer.VString "second")]);
    [reflexivity | discriminate | discriminate | reflexivity].
Defined.

Lemma proto_member_sets_prototype_witness :
  exists own,
    Sanitizer.sanitizeObject
      (Sanitizer.JObject (Scenario.profile_fields ++ Scenario.more_fields)%list)
    = Sanitizer.VObject Sanitizer.ObjectPrototype own /\
    Members.own_property "__proto__" own = None /\
    Sanitizer.sanitizeObject
      (Sanitizer.JObject
         (Scenario.profile_fields
            ++ ("__proto__", Scenario.granted) :: Scenario.more_fields)%list)
    = Sanitizer.VObject
        (Members.prototype_for (Sanitizer.sanitizeObject Scenario.granted))
        own /\
    Sanitizer.sanitizeObject
      (Sanitizer.JObject
         (Scenario.profile_fields ++ Scenario.more_fields
            ++ [("__proto__", Sanitizer.JNull);
                ("$__proto__", Scenario.granted)])%list)
    = Sanitizer.VObject Sanitizer.NullPrototype
        (own ++ [("__proto__", Sanitizer.sanitizeObject Scenario.granted)])%list.
Proof.
  apply (proto_member_sets_prototype Scenario.profile_fields
           Scenario.more_fields "__proto__" Scenario.granted
           "$__proto__" Scenario.granted); reflexivity.
Defined.

Lemma upload_check_sound_witness :
  Uploads.acceptable None Scenario.picture.
Proof.
  destruct (upload_check_sound None (Some Scenario.picture)
              (Uploads.FileArray [None]) eq_refl) as (H & _).
  by apply H.
Defined.
